(** * Import scanning, path resolution and the file dependency graph

    A shallow embedding of [tools/get_imports_from_file.py],
    [tools/get_app_folder_dependencies.py] and the scan loop of [main.py].

    Python [str] and [bytes] values are both modelled as [string] (a [str]
    is represented by its UTF-8 encoding; every character the program tests
    or strips is ASCII, so tests and slices agree on both views).  The file
    system, the tree-sitter parser and [json.load] are the environment: they are
    the fields of the class [World]. *)

From Stdlib Require Import String Ascii ZArith.
From stdpp Require Import base option list gmap strings.

Local Open Scope string_scope.
Local Set Warnings "-register-all".

(** ** Python exceptions *)

Inductive exn : Type :=
  | OSError
  | UnicodeDecodeError
  | JSONDecodeError
  | AttributeError
  | TypeError.

Inductive result (A : Type) : Type :=
  | Ok (a : A)
  | Raise (e : exn).
Arguments Ok {A} a.
Arguments Raise {A} e.

Global Instance exn_eq_dec : EqDecision exn.
Proof. solve_decision. Defined.

Global Instance result_ret : MRet result := fun A a => Ok a.
Global Instance result_bind : MBind result := fun A B f m =>
  match m with
  | Ok a => f a
  | Raise e => Raise e
  end.
Global Instance result_fmap : FMap result := fun A B f m =>
  match m with
  | Ok a => Ok (f a)
  | Raise e => Raise e
  end.

(** ** Strings: the [str] methods the program calls *)

Module Str.

Definition slash : ascii := "/"%char.
Definition dquote : ascii := "034"%char.
Definition squote : ascii := "'"%char.

(** [s.startswith(p)] *)
Fixpoint startswith (p s : string) : bool :=
  match p, s with
  | EmptyString, _ => true
  | String a p', String b s' => Ascii.eqb a b && startswith p' s'
  | String _ _, EmptyString => false
  end.

(** [s[n:]] for [n >= 0] *)
Fixpoint drop (n : nat) (s : string) : string :=
  match n, s with
  | 0, _ => s
  | S n', String _ r => drop n' r
  | S _, EmptyString => EmptyString
  end.

(** [s[a:b]] for [0 <= a], [0 <= b] *)
Definition slice (a b : nat) (s : string) : string :=
  String.substring a (b - a) s.

(** [s.lstrip(c)], [s.rstrip(c)] and [s.strip(c)] for a one-character [c] *)
Fixpoint lstrip (c : ascii) (s : string) : string :=
  match s with
  | String a r => if Ascii.eqb a c then lstrip c r else s
  | EmptyString => EmptyString
  end.

Fixpoint rstrip (c : ascii) (s : string) : string :=
  match s with
  | String a r =>
      match rstrip c r with
      | EmptyString => if Ascii.eqb a c then EmptyString else String a EmptyString
      | r' => String a r'
      end
  | EmptyString => EmptyString
  end.

Definition strip (c : ascii) (s : string) : string := rstrip c (lstrip c s).

(** [s.endswith("/")] *)
Fixpoint endswith_slash (s : string) : bool :=
  match s with
  | EmptyString => false
  | String a EmptyString => Ascii.eqb a slash
  | String _ r => endswith_slash r
  end.

(** [s == "/" * len(s)] *)
Fixpoint all_slashes (s : string) : bool :=
  match s with
  | EmptyString => true
  | String a r => Ascii.eqb a slash && all_slashes r
  end.

(** [s.split("/")] *)
Fixpoint split (s : string) : list string :=
  match s with
  | EmptyString => [EmptyString]
  | String a r =>
      if Ascii.eqb a slash then EmptyString :: split r
      else match split r with
           | h :: t => String a h :: t
           | [] => [String a EmptyString]
           end
  end.

(** ["/".join(l)] *)
Fixpoint join (l : list string) : string :=
  match l with
  | [] => EmptyString
  | [x] => x
  | x :: r => x ++ "/" ++ join r
  end.

(** [s[: s.rfind("/") + 1]]: the prefix up to and including the last slash *)
Fixpoint upto_last_slash (s : string) : string :=
  match s with
  | EmptyString => EmptyString
  | String a r =>
      match upto_last_slash r with
      | EmptyString => if Ascii.eqb a slash then "/" else EmptyString
      | h => String a h
      end
  end.

(** [sub in s] *)
Fixpoint contains (sub s : string) : bool :=
  startswith sub s ||
  match s with
  | EmptyString => false
  | String _ r => contains sub r
  end.

(** [b.decode("utf-8")] accepts the well-formed UTF-8 byte sequences. *)
Definition between (lo hi : nat) (a : ascii) : bool :=
  let n := nat_of_ascii a in (lo <=? n)%nat && (n <=? hi)%nat.

Definition cont (a : ascii) : bool := between 128 191 a.

Fixpoint utf8_wf (s : string) : bool :=
  match s with
  | EmptyString => true
  | String a r =>
      if between 0 127 a then utf8_wf r
      else if between 194 223 a then
        match r with
        | String b r1 => cont b && utf8_wf r1
        | _ => false
        end
      else if between 224 239 a then
        match r with
        | String b (String c r2) =>
            (if between 224 224 a then between 160 191 b
             else if between 237 237 a then between 128 159 b
             else cont b)
            && cont c && utf8_wf r2
        | _ => false
        end
      else if between 240 244 a then
        match r with
        | String b (String c (String d r3)) =>
            (if between 240 240 a then between 144 191 b
             else if between 244 244 a then between 128 143 b
             else cont b)
            && cont c && cont d && utf8_wf r3
        | _ => false
        end
      else false
  end.

Definition decode_utf8 (b : string) : result string :=
  if utf8_wf b then Ok b else Raise UnicodeDecodeError.

End Str.

(** ** [os.path] (posixpath) *)

Module Path.

(** [os.path.join(a, b)] *)
Definition join (a b : string) : string :=
  if Str.startswith "/" b then b
  else if String.eqb a "" || Str.endswith_slash a then a ++ b
  else a ++ "/" ++ b.

Definition isabs (p : string) : bool := Str.startswith "/" p.

(** The loop of [normpath] over the components. *)
Definition normpath_step (initial_slashes : nat) (new_comps : list string)
    (comp : string) : list string :=
  if String.eqb comp "" || String.eqb comp "." then new_comps
  else if negb (String.eqb comp "..")
          || (Nat.eqb initial_slashes 0 && bool_decide (new_comps = []))
          || bool_decide (last new_comps = Some "..")
       then (new_comps ++ [comp])%list
       else removelast new_comps.

Definition normpath (path : string) : string :=
  if String.eqb path "" then "."
  else
    let initial_slashes :=
      if Str.startswith "/" path then
        if Str.startswith "//" path && negb (Str.startswith "///" path)
        then 2 else 1
      else 0 in
    let comps := Str.split path in
    let new_comps := fold_left (normpath_step initial_slashes) comps [] in
    let path := Str.join new_comps in
    let path :=
      match initial_slashes with
      | 0 => path
      | 1 => "/" ++ path
      | _ => "//" ++ path
      end in
    if String.eqb path "" then "." else path.

(** [os.path.abspath(path)] when [os.getcwd()] is [cwd] *)
Definition abspath_in (cwd path : string) : string :=
  if isabs path then normpath path
  else normpath (join cwd path).

(** [os.path.dirname(p)] *)
Definition dirname (p : string) : string :=
  let head := Str.upto_last_slash p in
  if negb (String.eqb head "") && negb (Str.all_slashes head)
  then Str.rstrip Str.slash head
  else head.

(** A component that [normpath] keeps as it is. *)
Definition plain (c : string) : bool :=
  negb (String.eqb c "") && negb (String.eqb c ".") && negb (String.eqb c "..").

(** An absolutized and normalized path: it starts with a slash (or exactly
    two, which POSIX tells apart) and after that no component is empty, "."
    or ".."; so there is no doubled or trailing slash, the roots apart. *)
Definition normalized (p : string) : bool :=
  let body := if Str.startswith "//" p then Str.drop 2 p else Str.drop 1 p in
  isabs p && (String.eqb body "" || forallb plain (Str.split body)).

End Path.


(** ** JSON values, as [json.load] returns them *)

Inductive json : Type :=
  | JNull                              (* None *)
  | JBool (b : bool)
  | JInt (z : Z)
  | JFloat (nonzero : bool)            (* a float; only its truth value is observed *)
  | JStr (s : string)
  | JList (l : list json)
  | JDict (d : list (string * json)).  (* keys are distinct *)

(** Truth value of a Python object in an [if]. *)
Definition truthy (v : json) : bool :=
  match v with
  | JNull => false
  | JBool b => b
  | JInt z => negb (Z.eqb z 0)
  | JFloat nz => nz
  | JStr s => negb (String.eqb s "")
  | JList l => match l with [] => false | _ => true end
  | JDict d => match d with [] => false | _ => true end
  end.

Fixpoint assoc (key : string) (d : list (string * json)) : option json :=
  match d with
  | [] => None
  | (k, v) :: r => if String.eqb k key then Some v else assoc key r
  end.

(** [v.get(key, default)]: only a dict has the method. *)
Definition py_get (v : json) (key : string) (dflt : json) : result json :=
  match v with
  | JDict d => Ok (default dflt (assoc key d))
  | _ => Raise AttributeError
  end.

(** ** Syntax trees of tree-sitter *)

Inductive Node : Type :=
  mkNode { type : string; start_byte : nat; end_byte : nat; children : list Node }.

(** [tree.walk()]: a cursor is the current node and, for each ancestor, the
    ancestor with the index of the child the cursor went down through. *)
Record TreeCursor : Type := mkCursor {
  node : Node;
  ancestors : list (Node * nat)
}.

Definition walk (root : Node) : TreeCursor := mkCursor root [].

(** The three moves return [None] where tree-sitter returns [False] and
    leaves the cursor where it is. *)
Definition goto_first_child (c : TreeCursor) : option TreeCursor :=
  match children (node c) with
  | [] => None
  | ch :: _ => Some (mkCursor ch ((node c, 0) :: ancestors c))
  end.

Definition goto_next_sibling (c : TreeCursor) : option TreeCursor :=
  match ancestors c with
  | [] => None
  | (p, i) :: up =>
      match children p !! S i with
      | Some sib => Some (mkCursor sib ((p, S i) :: up))
      | None => None
      end
  end.

Definition goto_parent (c : TreeCursor) : option TreeCursor :=
  match ancestors c with
  | [] => None
  | (p, _) :: up => Some (mkCursor p up)
  end.

(** The [while True] loop of [traverse_tree]; the nodes it yields, or [None]
    when [fuel] iterations do not reach the [break]. *)
Fixpoint traverse_loop (fuel : nat) (cursor : TreeCursor) (visited_children : bool)
    : option (list Node) :=
  match fuel with
  | 0 => None
  | S fuel =>
      if negb visited_children then
        match goto_first_child cursor with
        | Some cursor' => cons (node cursor) <$> traverse_loop fuel cursor' false
        | None => cons (node cursor) <$> traverse_loop fuel cursor true
        end
      else
        match goto_next_sibling cursor with
        | Some cursor' => traverse_loop fuel cursor' false
        | None =>
            match goto_parent cursor with
            | Some cursor' => traverse_loop fuel cursor' true
            | None => Some []
            end
        end
  end.

Fixpoint node_count (n : Node) : nat :=
  S (list_sum (map node_count (children n))).

(** Every node is entered once and left once, so [2 * node_count] iterations
    reach the [break] ([traverse_loop_preorder] below). *)
Definition traverse_tree (root : Node) : list Node :=
  default [] (traverse_loop (2 * node_count root) (walk root) false).

(** Depth-first pre-order, the order the docstring announces. *)
Fixpoint preorder (n : Node) : list Node :=
  n :: concat (map preorder (children n)).

(** ** The environment: file system, JSON reader, parser *)

Class World : Type := {
  getcwd : string;                       (* os.getcwd(), an absolute path *)
  isfile : string -> bool;               (* os.path.isfile *)
  read_bytes : string -> option string;  (* open(p, "rb").read(); None: OSError *)
  json_loads : string -> option json;    (* json.loads; None: JSONDecodeError *)
  parser_ts_parse : string -> Node       (* parser_ts.parse(bytes).root_node *)
}.

Record ImportInfo : Type := mkInfo {
  file : string;
  imports : list string
}.

Fixpoint foldM {A B : Type} (f : B -> A -> result B) (l : list A) (b : B) : result B :=
  match l with
  | [] => Ok b
  | a :: r => b' ← f b a; foldM f r b'
  end.

Section Scanner.
Context {W : World}.

(** [os.path.abspath] *)
Definition abspath (path : string) : string := Path.abspath_in getcwd path.

Definition read_file_bytes (file_path : string) : result string :=
  match read_bytes file_path with
  | Some b => Ok b
  | None => Raise OSError
  end.

Definition parse_file (file_path : string) : result Node :=
  file_bytes ← read_file_bytes file_path;
  mret (parser_ts_parse file_bytes).

(** [open(p, "r", encoding="utf-8")] followed by [json.load] *)
Definition json_load (path : string) : result json :=
  b ← read_file_bytes path;
  text ← Str.decode_utf8 b;
  match json_loads text with
  | Some v => Ok v
  | None => Raise JSONDecodeError
  end.

(** The body of the [try] in [get_tsconfig_base_url]. *)
Definition read_base_url (tsconfig_path : string) : result json :=
  tsconfig ← json_load tsconfig_path;
  compiler_opts ← py_get tsconfig "compilerOptions" (JDict []);
  py_get compiler_opts "baseUrl" JNull.

(** [except (json.JSONDecodeError, OSError): pass] *)
Definition caught (e : exn) : bool :=
  match e with
  | JSONDecodeError | OSError => true
  | _ => false
  end.

(** The upward walk of [get_tsconfig_base_url]; [None] when [fuel]
    iterations do not leave the loop. *)
Fixpoint tsconfig_walk (fuel : nat) (current_dir : string) : option (result json) :=
  match fuel with
  | 0 => None
  | S fuel =>
      let tsconfig_path := Path.join current_dir "tsconfig.json" in
      let next :=
        let parent := Path.dirname current_dir in
        if String.eqb parent current_dir then Some (Ok JNull)
        else tsconfig_walk fuel parent in
      if isfile tsconfig_path then
        match read_base_url tsconfig_path with
        | Ok v => Some (Ok v)
        | Raise e => if caught e then next else Some (Raise e)
        end
      else next
  end.

(** [dirname] shortens every path it changes, so the loop runs at most
    [length current_dir + 1] times ([tsconfig_walk_terminates] below). *)
Definition walk_up (current_dir : string) : result json :=
  default (Ok JNull) (tsconfig_walk (S (String.length current_dir)) current_dir).

Definition get_tsconfig_base_url (start_dir : string) : result json :=
  walk_up (abspath start_dir).

(** The directory has no [tsconfig.json], or one that [json.load] does not
    parse. *)
Definition no_usable_config (current_dir : string) : Prop :=
  isfile (Path.join current_dir "tsconfig.json") = false
  \/ (isfile (Path.join current_dir "tsconfig.json") = true
      /\ json_load (Path.join current_dir "tsconfig.json") = Raise JSONDecodeError).

(** Step 1 of [resolve_import_path]: the rewriting of an ["@/"] specifier. *)
Definition apply_alias (base_dir import_path : string) : result string :=
  if Str.startswith "@/" import_path then
    base_url ← get_tsconfig_base_url base_dir;
    if truthy base_url then
      match base_url with
      | JStr b => Ok (Path.join b (Str.drop 2 import_path))
      | _ => Raise TypeError
      end
    else Ok (Str.drop 2 import_path)
  else Ok import_path.

Definition potential_extensions : list string := [".ts"; ".tsx"; ".js"; ".jsx"].

(** Steps 2 and 3: the candidates in the order they are tried. *)
Definition direct_candidates (base_dir import_path : string) : list string :=
  map (fun ext => Path.join base_dir (import_path ++ ext)) potential_extensions.

Definition index_candidates (base_dir import_path : string) : list string :=
  map (fun ext => Path.join (Path.join base_dir import_path) ("index" ++ ext))
      potential_extensions.

(** Both lists written out: the eight candidates in the order of the tries. *)
Definition candidates (base_dir import_path : string) : list string :=
  [Path.join base_dir (import_path ++ ".ts");
   Path.join base_dir (import_path ++ ".tsx");
   Path.join base_dir (import_path ++ ".js");
   Path.join base_dir (import_path ++ ".jsx");
   Path.join (Path.join base_dir import_path) "index.ts";
   Path.join (Path.join base_dir import_path) "index.tsx";
   Path.join (Path.join base_dir import_path) "index.js";
   Path.join (Path.join base_dir import_path) "index.jsx"].

Fixpoint first_file (candidates : list string) : option string :=
  match candidates with
  | [] => None
  | candidate :: r =>
      if isfile candidate then Some (abspath candidate) else first_file r
  end.

Definition resolve_import_path (base_dir import_path : string) : result (option string) :=
  import_path ← apply_alias base_dir import_path;
  match first_file (direct_candidates base_dir import_path) with
  | Some p => Ok (Some p)
  | None =>
      match first_file (index_candidates base_dir import_path) with
      | Some p => Ok (Some p)
      | None => Ok None
      end
  end.

(** [find_tsconfig_json]; [None] of the outer option is the loop out of fuel. *)
Fixpoint find_tsconfig_walk (fuel : nat) (current_dir : string) : option (option string) :=
  match fuel with
  | 0 => None
  | S fuel =>
      let tsconfig_path := Path.join current_dir "tsconfig.json" in
      if isfile tsconfig_path then Some (Some tsconfig_path)
      else
        let parent_dir := Path.dirname current_dir in
        if String.eqb parent_dir current_dir then Some None
        else find_tsconfig_walk fuel parent_dir
  end.

Definition find_tsconfig_json (start_dir : string) : option string :=
  let current_dir := abspath start_dir in
  default None (find_tsconfig_walk (S (String.length current_dir)) current_dir).

(** What [parse_tsconfig] returns. *)
Record TsConfig : Type := mkTsConfig {
  baseUrl : json;
  paths : json;
  tsconfigDir : option string
}.

Definition parse_tsconfig (tsconfig_path : option string) : result TsConfig :=
  match tsconfig_path with
  | None => Ok (mkTsConfig JNull (JDict []) None)
  | Some p =>
      if negb (String.eqb p "") && isfile p then
        config ← json_load p;
        compiler_opts ← py_get config "compilerOptions" (JDict []);
        base_url ← py_get compiler_opts "baseUrl" JNull;
        paths ← py_get compiler_opts "paths" (JDict []);
        mret (mkTsConfig base_url paths (Some (Path.dirname (abspath p))))
      else Ok (mkTsConfig JNull (JDict []) None)
  end.

(** The first child of type ["string"] of an import statement. *)
Definition import_path_node (n : Node) : option Node :=
  List.find (fun child => String.eqb (type child) "string") (children n).

Definition local_looking (import_path : string) : bool :=
  Str.startswith "." import_path
  || Str.startswith "/" import_path
  || Str.startswith "@" import_path.

(** What the loop of [extract_imports] does with a specifier once it is
    decoded and stripped. *)
Definition record_import (base_dir : string) (imports : list string)
    (import_path : string) : result (list string) :=
  if Str.startswith "next" import_path then Ok imports
  else if local_looking import_path then
    full_path ← resolve_import_path base_dir import_path;
    match full_path with
    | Some p =>
        if negb (String.eqb p "") then Ok (imports ++ [p])%list
        else Ok (imports ++ [import_path])%list
    | None => Ok (imports ++ [import_path])%list
    end
  else Ok (imports ++ [import_path])%list.

(** The specifier an import statement carries: the text of its first string
    child, decoded and stripped of its quotes.  [None] for the nodes the
    loop of [extract_imports] passes over. *)
Definition import_specifier (file_bytes : string) (n : Node) : option (result string) :=
  if String.eqb (type n) "import_statement" then
    match import_path_node n with
    | Some s =>
        Some (raw_text ← Str.decode_utf8
                            (Str.slice (start_byte s) (end_byte s) file_bytes);
              mret (Str.strip Str.squote (Str.strip Str.dquote raw_text)))
    | None => None
    end
  else None.

(** The body of the [for node in traverse_tree(tree)] loop. *)
Definition scan_node (file_bytes base_dir : string) (imports : list string)
    (n : Node) : result (list string) :=
  match import_specifier file_bytes n with
  | Some r => import_path ← r; record_import base_dir imports import_path
  | None => Ok imports
  end.

Definition extract_imports (file_path : string) : result ImportInfo :=
  tree ← parse_file file_path;
  file_bytes ← read_file_bytes file_path;
  let base_dir := Path.dirname file_path in
  imports ← foldM (scan_node file_bytes base_dir) (traverse_tree tree) [];
  mret (mkInfo file_path imports).

(** The scan loop of [main.py]: no handler around [extract_imports]. *)
Definition scan_files (ts_files : list string) : result (list ImportInfo) :=
  foldM (fun dependencies fpath =>
           info ← extract_imports fpath;
           mret (dependencies ++ [info])%list)
        ts_files [].

End Scanner.

(** ** The graph store *)

(** [File] nodes are unique by [path] and a relationship is merged on its
    two ends, so the store is a set of paths and a set of pairs. *)
Record GraphStore : Type := mkGraph {
  nodes : gset string;
  rels : gset (string * string)       (* (source)-[:IMPORTS]->(target) *)
}.

Definition delete_all (graph : GraphStore) : GraphStore := mkGraph ∅ ∅.

Definition merge_node (path : string) (tx : GraphStore) : GraphStore :=
  mkGraph ({[path]} ∪ nodes tx) (rels tx).

Definition merge_rel (source target : string) (tx : GraphStore) : GraphStore :=
  mkGraph (nodes tx) ({[(source, target)]} ∪ rels tx).

(** The inner loop of [create_file_dependency_graph]. *)
Definition add_imports (source_file : string) (tx : GraphStore)
    (imports : list string) : GraphStore :=
  foldl (fun tx imported_file =>
           if String.eqb imported_file "" then tx
           else merge_rel source_file imported_file (merge_node imported_file tx))
        tx imports.

(** The loop over the records, on the transaction. *)
Definition build (tx : GraphStore) (files_import_info : list ImportInfo) : GraphStore :=
  foldl (fun tx fi =>
           let source_file := file fi in
           add_imports source_file (merge_node source_file tx) (imports fi))
        tx files_import_info.

Definition create_file_dependency_graph (graph : GraphStore)
    (files_import_info : list ImportInfo) : GraphStore :=
  build (delete_all graph) files_import_info.

(** [(f)-[:IMPORTS*1..]->(dep)]: Cypher follows every path of one or more
    relationships in which no relationship occurs twice, and binds [dep] to
    its end.  [avail] holds the relationships not yet on the path; with no
    fuel left the expansion stops. *)
Fixpoint expand (fuel : nat) (avail : gset (string * string)) (cur : string)
    : list string :=
  match fuel with
  | 0 => []
  | S fuel =>
      r ← elements avail;
      if decide (r.1 = cur) then r.2 :: expand fuel (avail ∖ {[r]}) r.2 else []
  end.

(** [collect(DISTINCT dep.path)]; a path uses each relationship at most
    once, so [size (rels graph)] is enough fuel ([expand_fuel] below). *)
Definition dependencies_of (graph : GraphStore) (f : string) : list string :=
  remove_dups (expand (size (rels graph)) (rels graph) f).

(** One hop along an [IMPORTS] relationship. *)
Definition imports_rel (E : gset (string * string)) (a b : string) : Prop :=
  (a, b) ∈ E.

(** The rows of the query: one for each [File] whose path contains ["/app/"]. *)
Definition run_query (graph : GraphStore) : list (string * list string) :=
  map (fun f => (f, dependencies_of graph f))
      (filter (fun f => Str.contains "/app/" f) (elements (nodes graph))).

(** [l.remove(x)]: the first occurrence goes. *)
Fixpoint py_remove (x : string) (l : list string) : list string :=
  match l with
  | [] => []
  | y :: r => if decide (x = y) then r else y :: py_remove x r
  end.

(** [if file_path in deps: deps.remove(file_path)] *)
Definition without_self (file_path : string) (deps : list string) : list string :=
  if bool_decide (file_path ∈ deps) then py_remove file_path deps else deps.

Definition get_app_folder_dependencies (graph : GraphStore)
    : gmap string (list string) :=
  foldl (fun dependency_map record =>
           let file_path := record.1 in
           let deps := without_self file_path record.2 in
           <[file_path := deps]> dependency_map)
        ∅ (run_query graph).

(** ** Sample worlds *)

Module Sample.

(** A file system given by its working directory and its regular files
    (absolute normalized path, contents); no links, every file readable.
    [loads] and [trees] tabulate [json.loads] and the parser on the
    contents that occur. *)
Definition lookup_str {A : Type} (k : string) (l : list (string * A)) : option A :=
  snd <$> List.find (fun kv => String.eqb (fst kv) k) l.

Definition mkWorld (cwd : string) (files : list (string * string))
    (loads : list (string * json)) (trees : list (string * Node)) : World :=
  {| getcwd := cwd;
     isfile := fun p => bool_decide (is_Some (lookup_str (Path.abspath_in cwd p) files));
     read_bytes := fun p => lookup_str (Path.abspath_in cwd p) files;
     json_loads := fun text => lookup_str text loads;
     parser_ts_parse := fun b => default (mkNode "program" 0 (String.length b) [])
                                         (lookup_str b trees) |}.

Definition q (s : string) : string := String Str.dquote (s ++ String Str.dquote "").

Definition leaf (ty : string) (a b : nat) : Node := mkNode ty a b [].

Definition str_node (quote : string) (a b : nat) : Node :=
  mkNode "string" a b
    [leaf quote a (S a); leaf "string_fragment" (S a) (b - 1); leaf quote (b - 1) b].

Definition default_import (a : nat) (name_end from_pos : nat) (quote : string)
    (str_start str_end : nat) : Node :=
  mkNode "import_statement" a (S str_end)
    [leaf "import" a (a + 6);
     mkNode "import_clause" (a + 7) name_end [leaf "identifier" (a + 7) name_end];
     leaf "from" from_pos (from_pos + 4);
     str_node quote str_start str_end;
     leaf ";" str_end (S str_end)].

(** [app/a.tsx] *)
Definition a_src : string :=
  "import b from " ++ q "./b" ++ "; import _ from 'lodash'; import { useRouter } from "
  ++ q "next/router" ++ ";".

Definition a_tree : Node :=
  mkNode "program" 0 85
    [default_import 0 8 9 (String Str.dquote "") 14 19;
     default_import 21 29 30 "'" 35 43;
     mkNode "import_statement" 45 85
       [leaf "import" 45 51;
        mkNode "import_clause" 52 66
          [mkNode "named_imports" 52 66
             [leaf "{" 52 53;
              mkNode "import_specifier" 54 63 [leaf "identifier" 54 63];
              leaf "}" 65 66]];
        leaf "from" 67 71;
        str_node (String Str.dquote "") 71 84;
        leaf ";" 84 85]].

(** [app/b.tsx]: a side-effect import of a style sheet *)
Definition b_src : string := "import './globals.css';".

Definition b_tree : Node :=
  mkNode "program" 0 23
    [mkNode "import_statement" 0 23
       [leaf "import" 0 6; str_node "'" 7 22; leaf ";" 22 23]].

(** [app/self.tsx]: imports itself and a package whose name starts with "next" *)
Definition self_src : string := "import me from './self'; import ui from 'nextui';".

Definition self_tree : Node :=
  mkNode "program" 0 49
    [default_import 0 9 10 "'" 15 23; default_import 25 34 35 "'" 40 48].

(** [page.tsx]: an aliased import *)
Definition page_src : string := "import x from '@/x';".

Definition page_tree : Node :=
  mkNode "program" 0 20 [default_import 0 8 9 "'" 14 19].

Definition trees : list (string * Node) :=
  [(a_src, a_tree); (b_src, b_tree); (self_src, self_tree); (page_src, page_tree)].

(** The project scanned from [/w]. *)
Definition app_world : World :=
  mkWorld "/w"
    [("/w/app/a.tsx", a_src); ("/w/app/b.tsx", b_src); ("/w/app/self.tsx", self_src);
     ("/w/app/globals.css", "body {}")]
    [] trees.

(** [tsconfig.json] contents and what [json.loads] makes of them. *)
Definition tsconfig_src : string :=
  "{" ++ q "compilerOptions" ++ ": {" ++ q "baseUrl" ++ ": " ++ q "src" ++ "}}".
Definition tsconfig_commented : string :=
  "// project settings" ++ tsconfig_src.
Definition tsconfig_number : string :=
  "{" ++ q "compilerOptions" ++ ": {" ++ q "baseUrl" ++ ": 1}}".
Definition tsconfig_array : string := "[]".

Definition loads : list (string * json) :=
  [(tsconfig_src, JDict [("compilerOptions", JDict [("baseUrl", JStr "src")])]);
   (tsconfig_number, JDict [("compilerOptions", JDict [("baseUrl", JInt 1)])]);
   (tsconfig_array, JList [])].

(** One configuration scope, [/proj], with [baseUrl] "src". *)
Definition alias_world : World :=
  mkWorld "/proj"
    [("/proj/tsconfig.json", tsconfig_src);
     ("/proj/src/lib/util.ts", "export {};");
     ("/proj/app/src/lib/util.ts", "export {};");
     ("/proj/app/page.tsx", "");
     ("/proj/app/admin/page.tsx", "")]
    loads [].

(** A configuration that does not parse, under one that does. *)
Definition nested_world : World :=
  mkWorld "/p"
    [("/p/tsconfig.json", tsconfig_src);
     ("/p/a/tsconfig.json", tsconfig_commented)]
    loads [].

(** Configurations that parse but are not of the expected shape. *)
Definition number_world : World :=
  mkWorld "/p" [("/p/tsconfig.json", tsconfig_number); ("/p/page.tsx", page_src)]
    loads trees.
Definition array_world : World :=
  mkWorld "/p" [("/p/tsconfig.json", tsconfig_array); ("/p/page.tsx", page_src)]
    loads trees.

(** A module next to a directory of the same name that has an index file. *)
Definition precedence_world : World :=
  mkWorld "/w"
    [("/w/components/x.tsx", "export {};");
     ("/w/components/x/index.tsx", "export {};")]
    [] [].

(** Two files that import each other. *)
Definition cycle_graph : GraphStore :=
  create_file_dependency_graph (mkGraph ∅ ∅)
    [mkInfo "/w/app/a.tsx" ["/w/app/b.tsx"; "react"];
     mkInfo "/w/app/b.tsx" ["/w/app/a.tsx"]].

End Sample.

(** ** [utils/helper_functions.py] *)

Section Helpers.
Context {W : World}.

(** The loop of [find_tsconfig_dir]; the outer [None] is the loop out of
    fuel. *)
Fixpoint find_dir_walk (fuel : nat) (current_dir : string) : option (option string) :=
  match fuel with
  | 0 => None
  | S fuel =>
      let tsconfig_path := Path.join current_dir "tsconfig.json" in
      if isfile tsconfig_path then Some (Some current_dir)
      else
        let parent_dir := Path.dirname current_dir in
        if String.eqb parent_dir current_dir then Some None
        else find_dir_walk fuel parent_dir
  end.

Definition find_tsconfig_dir (start_dir : string) : option string :=
  let current_dir := abspath start_dir in
  default None (find_dir_walk (S (String.length current_dir)) current_dir).

End Helpers.

(** ** [tools/get_feature_summary.py] and the summary loop of [main.py] *)

(** The language model: what
    [openai.chat.completions.create(model, messages, max_tokens, temperature)
     .choices[0].message.content.strip()]
    gives for the system and user contents, on the request of the given
    number (the service need not answer twice alike); [None] when anything
    in the [try] raises. *)
Class LanguageModel : Type := {
  chat_completion : nat -> string -> string -> option string
}.

Module Summary.

Definition nl : string := String "010"%char EmptyString.

(** Text mode reads every "\r\n" and every "\r" as "\n". *)
Fixpoint universal_newlines (s : string) : string :=
  match s with
  | EmptyString => EmptyString
  | String a r =>
      if Ascii.eqb a "013"%char then
        match r with
        | String b r' =>
            if Ascii.eqb b "010"%char then String "010"%char (universal_newlines r')
            else String "010"%char (universal_newlines r)
        | EmptyString => nl
        end
      else String a (universal_newlines r)
  end.

Section Summarizer.
Context {W : World} {M : LanguageModel}.

(** [except Exception] takes the failure to open and the failure to decode
    alike (the message it prints is left out). *)
Definition read_file_content (file_path : string) : string :=
  match read_bytes file_path with
  | Some b =>
      match Str.decode_utf8 b with
      | Ok text => universal_newlines text
      | Raise _ => ""
      end
  | None => ""
  end.

Definition snippet (fp content : string) : string :=
  "--- FILE: " ++ fp ++ nl ++ content ++ nl.

Definition code_snippets (file_list : list string) : list string :=
  foldl (fun code_snippets fp =>
           let content := read_file_content fp in
           if negb (String.eqb content "") then (code_snippets ++ [snippet fp content])%list
           else code_snippets)
        [] file_list.

Definition system_prompt : string := "You are a helpful AI that summarizes code.".

Definition user_prompt (combined_code : string) : string :=
  "You are given several TypeScript/TSX files from a Next.js project. "
  ++ "Please describe the feature they collectively implement, including:" ++ nl
  ++ "- The main functionality" ++ nl
  ++ "- Any important components" ++ nl
  ++ "- How they work together" ++ nl ++ nl
  ++ "Here are the files:" ++ nl ++ combined_code.

(** [n] counts the requests made so far. *)
Definition generate_feature_summary (n : nat) (file_list : list string) : string :=
  let combined_code := String.concat nl (code_snippets file_list) in
  default "Error or no response from LLM."
          (chat_completion n system_prompt (user_prompt combined_code)).

Fixpoint repeat_str (s : string) (n : nat) : string :=
  match n with
  | 0 => EmptyString
  | S n => s ++ repeat_str s n
  end.

(** The three [outfile.write] calls for one summary. *)
Definition section_of (main_file summary : string) : list string :=
  ["=== Feature Summary for " ++ main_file ++ " ===" ++ nl;
   summary;
   nl ++ repeat_str "-" 80 ++ nl].

(** The body of the inner loop: the strings written so far and the number
    of requests made so far. *)
Definition summarize (st : list string * nat) (dependency_map : ImportInfo)
    : list string * nat :=
  let main_file := file dependency_map in
  let deps := imports dependency_map in
  let all_files_for_feature := main_file :: deps in
  let summary := generate_feature_summary st.2 all_files_for_feature in
  ((st.1 ++ section_of main_file summary)%list, S st.2).

(** [dependency_map.items()]: the two keys [extract_imports] gave the dict,
    each with its value. *)
Definition items (dependency_map : ImportInfo)
    : list (string * (string + list string)) :=
  [("file", inl (file dependency_map));
   ("imports", inr (imports dependency_map))].

(** The [with open("feature_summaries.txt", "w")] block of [main.py]. *)
Definition write_summaries (dependencies : list ImportInfo) : list string * nat :=
  foldl (fun st dependency_map =>
           foldl (fun st _ => summarize st dependency_map) st (items dependency_map))
        ([], 0) dependencies.

End Summarizer.

End Summary.

(** ** Notions the proofs use *)

(** Iterations the loop of [traverse_tree] spends on a list of siblings. *)
Definition loop_cost (l : list Node) : nat :=
  list_sum (map (fun c => 2 * node_count c) l).

(** From a node not yet visited, the loop yields the pre-order of the
    subtree and comes back to the node with its children visited. *)
Definition subtree_done (n : Node) : Prop :=
  forall up fuel,
    traverse_loop (2 * node_count n - 1 + fuel) (mkCursor n up) false
    = (fun l => preorder n ++ l)%list <$> traverse_loop fuel (mkCursor n up) true.

(** A component: a string without a slash. *)
Definition no_slash (c : string) : Prop := Str.split c = [c].

(** A component of a normalized path. *)
Definition good (c : string) : Prop := Path.plain c = true /\ no_slash c.

(** ** Notions the further properties use *)

(** The two parts of [normpath]: the count of leading slashes, and the path
    put together from the components the loop kept. *)
Definition initial_slashes (path : string) : nat :=
  if Str.startswith "/" path then
    if Str.startswith "//" path && negb (Str.startswith "///" path)
    then 2 else 1
  else 0.

Definition rendered (slashes : nat) (new_comps : list string) : string :=
  let path := Str.join new_comps in
  let path :=
    match slashes with
    | 0 => path
    | 1 => "/" ++ path
    | _ => "//" ++ path
    end in
  if String.eqb path "" then "." else path.

Section Entries.
Context {W : World}.

(** What [extract_imports] records for a specifier that does not start with
    "next": the resolved path of a local-looking specifier, the specifier
    itself when it does not resolve or does not look local. *)
Definition entry_of (base_dir import_path entry : string) : Prop :=
  if local_looking import_path then
    resolve_import_path base_dir import_path = Ok (Some entry)
    \/ (resolve_import_path base_dir import_path = Ok None /\ entry = import_path)
  else entry = import_path.

(** The [k]-th directory above [d]. *)
Definition ancestor (k : nat) (d : string) : string := Nat.iter k Path.dirname d.

(** [find_tsconfig_dir] and [find_tsconfig_json] from a directory that is
    absolute already. *)
Definition find_dir_from (d : string) : option string :=
  default None (find_dir_walk (S (String.length d)) d).

Definition find_json_from (d : string) : option string :=
  default None (find_tsconfig_walk (S (String.length d)) d).

End Entries.

Module More.

Import Sample.

(** [app/index.ts]: a re-export; its tree has no import statement. *)
Definition reexport_src : string := "export { b } from './b';".

Definition reexport_tree : Node :=
  mkNode "program" 0 24
    [mkNode "export_statement" 0 24
       [leaf "export" 0 6;
        mkNode "export_clause" 7 12
          [leaf "{" 7 8;
           mkNode "export_specifier" 9 10 [leaf "identifier" 9 10];
           leaf "}" 11 12];
        leaf "from" 13 17;
        str_node "'" 18 23;
        leaf ";" 23 24]].

Definition reexport_world : World :=
  mkWorld "/w"
    [("/w/app/index.ts", reexport_src); ("/w/app/b.tsx", b_src)]
    [] ((reexport_src, reexport_tree) :: trees).

(** A configuration whose [baseUrl] is an absolute path. *)
Definition tsconfig_absolute : string :=
  "{" ++ q "compilerOptions" ++ ": {" ++ q "baseUrl" ++ ": " ++ q "/proj/src" ++ "}}".

Definition absolute_world : World :=
  mkWorld "/proj"
    [("/proj/tsconfig.json", tsconfig_absolute);
     ("/proj/src/lib/util.ts", "export {};");
     ("/proj/app/src/lib/util.ts", "export {};")]
    [(tsconfig_absolute, JDict [("compilerOptions", JDict [("baseUrl", JStr "/proj/src")])])]
    [].

(** A configuration without [baseUrl], under one that has it. *)
Definition tsconfig_bare : string := "{" ++ q "compilerOptions" ++ ": {}}".

Definition bare_world : World :=
  mkWorld "/p"
    [("/p/tsconfig.json", tsconfig_src); ("/p/a/tsconfig.json", tsconfig_bare)]
    ((tsconfig_bare, JDict [("compilerOptions", JDict [])]) :: loads) [].

(** A chain of imports under [web/app]: [a.tsx] imports [./b] (and two
    packages), [b.tsx] imports [./c]. *)
Definition chain_b_src : string := "import c from './c';".

Definition chain_b_tree : Node :=
  mkNode "program" 0 20 [default_import 0 8 9 "'" 14 19].

Definition chain_world : World :=
  mkWorld "/w"
    [("/w/web/app/a.tsx", a_src); ("/w/web/app/b.tsx", chain_b_src);
     ("/w/web/app/c.tsx", "export {};")]
    [] ((chain_b_src, chain_b_tree) :: trees).

(** A file under "/app/" that nothing leaves. *)
Definition leaf_graph : GraphStore :=
  create_file_dependency_graph (mkGraph ∅ ∅)
    [mkInfo "/w/app/a.tsx" ["/w/app/leaf.tsx"]].

End More.

(** * Properties *)

Example split_ex : Str.split "/a//b/" = [""; "a"; ""; "b"; ""].
Proof. reflexivity. Qed.
Example normpath_ex1 : Path.normpath "/w/app/./x/../b.tsx" = "/w/app/b.tsx".
Proof. reflexivity. Qed.
Example normpath_ex2 : Path.normpath "a/../../b/" = "../b".
Proof. reflexivity. Qed.
Example normpath_ex3 : Path.normpath "//a/.." = "//".
Proof. reflexivity. Qed.
Example normpath_ex4 : Path.normpath "///a/.." = "/".
Proof. reflexivity. Qed.
Example dirname_ex1 : Path.dirname "/w/app/a.tsx" = "/w/app".
Proof. reflexivity. Qed.
Example dirname_ex2 : Path.dirname "/w" = "/" /\ Path.dirname "/" = "/" /\ Path.dirname "a.tsx" = "".
Proof. repeat split. Qed.
Example dirname_ex3 : Path.dirname "/a//b" = "/a" /\ Path.dirname "//" = "//".
Proof. repeat split. Qed.
Example strip_ex :
  Str.strip Str.squote (Str.strip Str.dquote (String Str.dquote ("./b" ++ String Str.dquote ""))) = "./b".
Proof. reflexivity. Qed.
Example contains_ex : Str.contains "/app/" "x/app/page.tsx" = true /\ Str.contains "/app/" "x/app" = false.
Proof. split; reflexivity. Qed.

(** ** The traversal *)

Lemma Node_ind' (P : Node -> Prop) :
  (forall ty a b cs, Forall P cs -> P (mkNode ty a b cs)) ->
  forall n, P n.
Proof.
  intros H. fix IH 1. intros [ty a b cs]. apply H.
  induction cs as [|c cs IHcs]; constructor; [apply IH | apply IHcs].
Qed.

Lemma goto_next_sibling_drop (p c : Node) (i : nat) (up : list (Node * nat))
    (rest : list Node) :
  drop i (children p) = c :: rest ->
  goto_next_sibling (mkCursor c ((p, i) :: up))
  = (fun sib => mkCursor sib ((p, S i) :: up)) <$> head rest.
Proof.
  intros Hdrop. unfold goto_next_sibling. simpl.
  replace (S i) with (i + 1) by lia.
  rewrite <- (lookup_drop (children p) i 1), Hdrop.
  by destruct rest.
Qed.

Lemma loop_siblings (p : Node) (up : list (Node * nat)) :
  forall rest c i fuel,
    Forall subtree_done (c :: rest) ->
    drop i (children p) = c :: rest ->
    traverse_loop (loop_cost (c :: rest) + fuel) (mkCursor c ((p, i) :: up)) false
    = (fun l => concat (map preorder (c :: rest)) ++ l)%list
        <$> traverse_loop fuel (mkCursor p up) true.
Proof.
  induction rest as [|c' rest IH]; intros c i fuel Hall Hdrop.
  - apply Forall_inv in Hall.
    replace (loop_cost [c] + fuel) with (2 * node_count c - 1 + S fuel)
      by (unfold loop_cost; simpl; destruct c; simpl; lia).
    rewrite Hall. simpl traverse_loop at 1.
    rewrite (goto_next_sibling_drop _ _ _ _ _ Hdrop). simpl.
    destruct (traverse_loop fuel (mkCursor p up) true); simpl; [|done].
    by rewrite app_nil_r.
  - pose proof (Forall_inv Hall) as Hc. apply Forall_inv_tail in Hall.
    replace (loop_cost (c :: c' :: rest) + fuel)
      with (2 * node_count c - 1 + S (loop_cost (c' :: rest) + fuel))
      by (unfold loop_cost; simpl; destruct c; simpl; lia).
    rewrite Hc. simpl traverse_loop at 1.
    rewrite (goto_next_sibling_drop _ _ _ _ _ Hdrop). simpl head. simpl fmap at 2. cbv beta iota.
    rewrite (IH c' (S i) fuel Hall).
    + destruct (traverse_loop fuel (mkCursor p up) true); simpl; [|done].
      by rewrite <- !app_assoc.
    + replace (S i) with (i + 1) by lia.
      rewrite <- (drop_drop (children p) 1 i), Hdrop. reflexivity.
Qed.

Lemma loop_subtree (n : Node) : subtree_done n.
Proof.
  induction n as [ty a b cs IH] using Node_ind'. intros up fuel.
  destruct cs as [|c rest].
  - reflexivity.
  - replace (2 * node_count (mkNode ty a b (c :: rest)) - 1 + fuel)
      with (S (loop_cost (c :: rest) + fuel)).
    2:{ assert (forall l, loop_cost l = 2 * list_sum (map node_count l)) as ->.
        { induction l as [|x l IHl]; [done|].
          unfold loop_cost in *. simpl in *. lia. }
        simpl. lia. }
    simpl traverse_loop at 1.
    rewrite (loop_siblings (mkNode ty a b (c :: rest)) up rest c 0 fuel IH eq_refl).
    destruct (traverse_loop fuel _ true); reflexivity.
Qed.

(** The loop reaches its [break] within the fuel [traverse_tree] gives it. *)
Lemma traverse_loop_preorder (root : Node) :
  traverse_loop (2 * node_count root) (walk root) false = Some (preorder root).
Proof.
  replace (2 * node_count root) with (2 * node_count root - 1 + 1)
    by (destruct root; simpl; lia).
  unfold walk. rewrite loop_subtree. simpl. by rewrite app_nil_r.
Qed.

Lemma traverse_tree_preorder (root : Node) : traverse_tree root = preorder root.
Proof. unfold traverse_tree. by rewrite traverse_loop_preorder. Qed.

(** ** Strings and paths *)

Local Arguments Ascii.eqb : simpl never.

(** stdpp keeps [simpl] from unfolding the append of strings. *)
Lemma app_cons_str (c : ascii) (a b : string) : String c a ++ b = String c (a ++ b).
Proof. reflexivity. Qed.

Lemma app_nil_l_str (b : string) : "" ++ b = b.
Proof. reflexivity. Qed.

Ltac str_simpl := rewrite ?app_cons_str, ?app_nil_l_str.

Lemma length_app (a b : string) :
  String.length (a ++ b) = String.length a + String.length b.
Proof. induction a as [|c a IH]; str_simpl; simpl; [done | by rewrite IH]. Qed.

Lemma app_nil_r_str (a : string) : a ++ "" = a.
Proof. induction a as [|c a IH]; str_simpl; [done | by rewrite IH]. Qed.

Lemma app_assoc_str (a b c : string) : (a ++ b) ++ c = a ++ b ++ c.
Proof. induction a as [|x a IH]; str_simpl; [done | by rewrite IH]. Qed.

Lemma upto_last_slash_prefix (s : string) :
  exists r, s = Str.upto_last_slash s ++ r.
Proof.
  induction s as [|a s [r IH]]; simpl; [by exists ""|].
  destruct (Str.upto_last_slash s) as [|h0 h] eqn:E.
  - destruct (Ascii.eqb_spec a Str.slash) as [->|_]; [by exists s | by exists (String a s)].
  - exists r. rewrite app_cons_str. by rewrite <- IH.
Qed.

Lemma rstrip_prefix (c : ascii) (s : string) : exists r, s = Str.rstrip c s ++ r.
Proof.
  induction s as [|a s [r IH]]; simpl; [by exists ""|].
  destruct (Str.rstrip c s) as [|h0 h] eqn:E.
  - destruct (Ascii.eqb a c); [by exists (String a s) | by exists s].
  - exists r. rewrite app_cons_str. by rewrite <- IH.
Qed.

Lemma dirname_prefix (p : string) : exists r, p = Path.dirname p ++ r.
Proof.
  unfold Path.dirname. destruct (upto_last_slash_prefix p) as [r1 H1].
  destruct (_ && _); [|by exists r1].
  destruct (rstrip_prefix Str.slash (Str.upto_last_slash p)) as [r2 H2].
  exists (r2 ++ r1). by rewrite <- app_assoc_str, <- H2.
Qed.

(** [dirname] shortens every path that is not its own parent. *)
Lemma dirname_shorter (p : string) :
  Path.dirname p <> p -> String.length (Path.dirname p) < String.length p.
Proof.
  intros Hne. destruct (dirname_prefix p) as [r Hr].
  destruct r as [|c r].
  - rewrite app_nil_r_str in Hr. by destruct Hne.
  - rewrite Hr at 2. rewrite length_app. simpl. lia.
Qed.

(** ** The upward walk *)

Section Walk.
Context {W : World}.

Lemma tsconfig_walk_fuel (n m : nat) (d : string) :
  String.length d < n -> String.length d < m ->
  tsconfig_walk n d = tsconfig_walk m d.
Proof.
  revert m d. induction n as [|n IH]; intros [|m] d Hn Hm; try lia.
  simpl. destruct (String.eqb_spec (Path.dirname d) d) as [Heq|Hne]; [done|].
  apply dirname_shorter in Hne.
  by rewrite (IH m (Path.dirname d)) by lia.
Qed.

(** The loop always leaves within the fuel [walk_up] gives it. *)
Lemma tsconfig_walk_terminates (n : nat) (d : string) :
  String.length d < n -> is_Some (tsconfig_walk n d).
Proof.
  revert d. induction n as [|n IH]; intros d Hn; [lia|].
  simpl.
  assert (is_Some (if String.eqb (Path.dirname d) d then Some (Ok JNull)
                   else tsconfig_walk n (Path.dirname d))) as Hnext.
  { destruct (String.eqb_spec (Path.dirname d) d) as [Heq|Hne]; [done|].
    apply dirname_shorter in Hne. apply IH. lia. }
  destruct (isfile _); [|done].
  destruct (read_base_url _) as [v|e]; [done|]. by destruct (caught e).
Qed.

(** One iteration of the loop, in terms of the walk from the parent. *)
Lemma walk_up_unfold (d : string) :
  walk_up d =
    let next := if String.eqb (Path.dirname d) d then Ok JNull
                else walk_up (Path.dirname d) in
    if isfile (Path.join d "tsconfig.json") then
      match read_base_url (Path.join d "tsconfig.json") with
      | Ok v => Ok v
      | Raise e => if caught e then next else Raise e
      end
    else next.
Proof.
  unfold walk_up at 1. simpl.
  assert ((default (Ok JNull)
            (if String.eqb (Path.dirname d) d then Some (Ok JNull)
             else tsconfig_walk (String.length d) (Path.dirname d)))
          = if String.eqb (Path.dirname d) d then Ok JNull
            else walk_up (Path.dirname d)) as Hnext.
  { destruct (String.eqb_spec (Path.dirname d) d) as [Heq|Hne]; [done|].
    apply dirname_shorter in Hne. unfold walk_up.
    by rewrite (tsconfig_walk_fuel (String.length d)
                  (S (String.length (Path.dirname d)))) by lia. }
  destruct (isfile _); [|done].
  destruct (read_base_url _) as [v|e]; [done|]. by destruct (caught e).
Qed.

Lemma walk_up_skip (d : string) :
  no_usable_config d ->
  walk_up d = if String.eqb (Path.dirname d) d then Ok JNull
              else walk_up (Path.dirname d).
Proof.
  intros H. rewrite walk_up_unfold at 1. cbv zeta.
  destruct H as [-> | [-> Hload]]; [done|].
  unfold read_base_url. by rewrite Hload.
Qed.

Lemma walk_up_nothing_usable (d : string) :
  (forall k, no_usable_config (Nat.iter k Path.dirname d)) -> walk_up d = Ok JNull.
Proof.
  remember (String.length d) as n eqn:Hn. revert d Hn.
  induction n as [n IH] using lt_wf_ind. intros d -> Hall.
  rewrite (walk_up_skip d (Hall 0)).
  destruct (String.eqb_spec (Path.dirname d) d) as [_|Hne]; [done|].
  apply (IH _ (dirname_shorter d Hne) _ eq_refl).
  intros k. specialize (Hall (S k)). by rewrite Nat.iter_succ_r in Hall.
Qed.

End Walk.

(** ** Normal form of [normpath] on absolute paths *)

Lemma split_nonempty (s : string) : Str.split s <> [].
Proof.
  destruct s as [|a s]; simpl; [done|].
  destruct (Ascii.eqb a Str.slash); [done|]. by destruct (Str.split s).
Qed.

Lemma split_app_slash (a b : string) :
  Str.split (a ++ String Str.slash b) = (Str.split a ++ Str.split b)%list.
Proof.
  induction a as [|c a IH]; str_simpl; simpl; [done|].
  rewrite IH. destruct (Ascii.eqb c Str.slash); [done|].
  pose proof (split_nonempty a). by destruct (Str.split a).
Qed.

Lemma split_no_slash (s : string) : Forall no_slash (Str.split s).
Proof.
  induction s as [|a s IH]; simpl; [by constructor|].
  destruct (Ascii.eqb a Str.slash) eqn:Ea; [by constructor|].
  pose proof (split_nonempty s).
  destruct (Str.split s) as [|h t]; [done|].
  apply Forall_cons in IH as [Hh Ht]. constructor; [|done].
  unfold no_slash in *. simpl. by rewrite Ea, Hh.
Qed.

Lemma split_join (comps : list string) :
  comps <> [] -> Forall no_slash comps -> Str.split (Str.join comps) = comps.
Proof.
  induction comps as [|c comps IH]; [done|]. intros _ Hall.
  apply Forall_cons in Hall as [Hc Hall].
  destruct comps as [|c' comps]; [done|].
  change (Str.join (c :: c' :: comps)) with (c ++ String Str.slash (Str.join (c' :: comps))).
  by rewrite split_app_slash, Hc, IH.
Qed.

Lemma Forall_removelast {A : Type} (P : A -> Prop) (l : list A) :
  Forall P l -> Forall P (removelast l).
Proof.
  induction 1 as [|x l Hx Hl IH]; simpl; [done|].
  destruct l; [done | by constructor].
Qed.

Lemma normpath_step_good (k : nat) (acc : list string) (c : string) :
  k <> 0 -> no_slash c -> Forall good acc ->
  Forall good (Path.normpath_step k acc c).
Proof.
  intros Hk Hc Hacc. unfold Path.normpath_step.
  destruct (String.eqb c "") eqn:E1; [done|].
  destruct (String.eqb c ".") eqn:E2; [done|]. simpl.
  destruct (String.eqb c "..") eqn:E3; simpl.
  - destruct k as [|k]; [done|]. simpl.
    case_bool_decide as Hlast; [|by apply Forall_removelast].
    apply last_Some_elem_of in Hlast.
    rewrite Forall_forall in Hacc. by destruct (Hacc _ Hlast) as [[=] _].
  - apply Forall_app. split; [done|]. constructor; [|done].
    split; [|done]. unfold Path.plain. by rewrite E1, E2, E3.
Qed.

Lemma normpath_loop_good (k : nat) (comps acc : list string) :
  k <> 0 -> Forall no_slash comps -> Forall good acc ->
  Forall good (fold_left (Path.normpath_step k) comps acc).
Proof.
  intros Hk Hcomps. revert acc.
  induction Hcomps as [|c comps Hc _ IH]; intros acc Hacc; simpl; [done|].
  apply IH. by apply normpath_step_good.
Qed.

Lemma startswith_slash (s : string) :
  Str.startswith "/" s = true <-> exists r, s = String Str.slash r.
Proof.
  destruct s as [|a r]; simpl.
  - split; [done | by intros [? ?]].
  - destruct (Ascii.eqb_spec "/" a) as [<-|Hne]; simpl.
    + split; [by exists r | done].
    + split; [done | intros [? [= ? ?]]; by destruct Hne].
Qed.

(** The shape of what [normpath] returns for an absolute path. *)
Lemma normpath_abs_form (p : string) :
  Path.isabs p = true ->
  exists lead comps,
    (lead = "/" \/ lead = "//") /\ Forall good comps
    /\ Path.normpath p = lead ++ Str.join comps.
Proof.
  intros Habs. unfold Path.normpath, Path.isabs in *.
  destruct (String.eqb_spec p "") as [->|_]; [done|].
  rewrite Habs.
  set (k := if Str.startswith "//" p && negb (Str.startswith "///" p) then 2 else 1).
  assert (Forall good (fold_left (Path.normpath_step k) (Str.split p) [])) as Hgood.
  { apply normpath_loop_good; [|apply split_no_slash|done].
    subst k. by destruct (_ && _). }
  set (new_comps := fold_left _ _ _) in *.
  destruct (_ && _); simpl in k; subst k; cbv iota.
  - exists "//", new_comps. split; [by right|]. split; [done|]. by str_simpl.
  - exists "/", new_comps. split; [by left|]. split; [done|]. by str_simpl.
Qed.

Lemma good_head (c : string) : good c -> exists a r, c = String a r /\ a <> Str.slash.
Proof.
  intros [Hp Hs]. destruct c as [|a r]; [done|]. exists a, r. split; [done|].
  intros ->. unfold no_slash in Hs. simpl in Hs. done.
Qed.

Lemma good_no_slash (comps : list string) : Forall good comps -> Forall no_slash comps.
Proof. intros H. eapply Forall_impl; [done|]. by intros c [_ ?]. Qed.

Lemma good_plain (comps : list string) :
  Forall good comps -> forallb Path.plain comps = true.
Proof.
  induction 1 as [|c comps [Hc _] _ IH]; simpl; [done|]. by rewrite Hc, IH.
Qed.

Lemma join_good_head (comps : list string) :
  Forall good comps -> comps <> [] ->
  exists a r, Str.join comps = String a r /\ a <> Str.slash.
Proof.
  intros Hall Hne. destruct comps as [|c comps]; [done|].
  apply Forall_cons in Hall as [Hc _].
  destruct (good_head c Hc) as (a & r & -> & Ha).
  destruct comps; simpl; str_simpl; eauto.
Qed.

Lemma normalized_form (lead : string) (comps : list string) :
  lead = "/" \/ lead = "//" -> Forall good comps ->
  Path.normalized (lead ++ Str.join comps) = true.
Proof.
  intros Hlead Hall. destruct comps as [|c comps].
  { by destruct Hlead as [-> | ->]. }
  destruct (join_good_head (c :: comps) Hall) as (a & r & Hj & Ha); [done|].
  assert (Str.split (Str.join (c :: comps)) = c :: comps) as Hsplit
    by (apply split_join; [done | by apply good_no_slash]).
  unfold Path.normalized, Path.isabs.
  destruct Hlead as [-> | ->]; str_simpl.
  - rewrite Hj in *. simpl. destruct (Ascii.eqb_spec "/" a) as [<-|_]; [done|].
    simpl in *. rewrite Hsplit. by apply good_plain in Hall as ->.
  - rewrite Hj in *. simpl in *. rewrite Hsplit. by apply good_plain in Hall as ->.
Qed.

Lemma normpath_normalized (p : string) :
  Path.isabs p = true -> Path.normalized (Path.normpath p) = true.
Proof.
  intros Habs. destruct (normpath_abs_form p Habs) as (lead & comps & Hl & Hc & ->).
  by apply normalized_form.
Qed.

Lemma join_isabs (cwd p : string) :
  Path.isabs cwd = true -> Path.isabs (Path.join cwd p) = true.
Proof.
  unfold Path.isabs, Path.join. intros Hcwd.
  destruct (Str.startswith "/" p) eqn:Hp; [done|].
  apply startswith_slash in Hcwd as [r ->].
  by destruct (_ || _).
Qed.

(** [abspath] returns an absolutized, normalized path. *)
Lemma abspath_in_normalized (cwd p : string) :
  Path.isabs cwd = true -> Path.normalized (Path.abspath_in cwd p) = true.
Proof.
  intros Hcwd. unfold Path.abspath_in.
  destruct (Path.isabs p) eqn:Hp; apply normpath_normalized; [done|].
  by apply join_isabs.
Qed.

Lemma normpath_nonempty (p : string) : Path.normpath p <> "".
Proof.
  unfold Path.normpath. destruct (String.eqb p ""); [done|].
  match goal with |- (if String.eqb ?x "" then _ else _) <> _ =>
    destruct (String.eqb_spec x "") end; done.
Qed.

Lemma abspath_in_nonempty (cwd p : string) : Path.abspath_in cwd p <> "".
Proof. unfold Path.abspath_in. destruct (Path.isabs p); apply normpath_nonempty. Qed.

Lemma normalized_isabs (p : string) : Path.normalized p = true -> Path.isabs p = true.
Proof. unfold Path.normalized. by intros [? _]%andb_true_iff. Qed.

Lemma join_split (s : string) : Str.join (Str.split s) = s.
Proof.
  induction s as [|a s IH]; [done|]. simpl.
  pose proof (split_nonempty s) as Hne.
  destruct (Ascii.eqb_spec a Str.slash) as [->|_].
  - destruct (Str.split s) as [|h t]; [done|]. simpl in *. by rewrite IH.
  - destruct (Str.split s) as [|h t]; [done|].
    destruct t as [|h' t]; simpl in *; [by rewrite IH|].
    by rewrite app_cons_str, IH.
Qed.

Lemma normpath_loop_plain (k : nat) (comps acc : list string) :
  forallb Path.plain comps = true ->
  fold_left (Path.normpath_step k) comps acc = (acc ++ comps)%list.
Proof.
  revert acc. induction comps as [|c comps IH]; intros acc; simpl.
  - by rewrite app_nil_r.
  - intros [Hc Hall]%andb_true_iff. rewrite IH by done.
    assert (Path.normpath_step k acc c = (acc ++ [c])%list) as ->.
    { unfold Path.normpath_step, Path.plain in *.
      destruct (String.eqb c ""); [done|]. destruct (String.eqb c "."); [done|].
      by destruct (String.eqb c ".."). }
    by rewrite <- app_assoc.
Qed.

Lemma startswith_cons (a b : ascii) (p s : string) :
  Str.startswith (String a p) (String b s) = Ascii.eqb a b && Str.startswith p s.
Proof. reflexivity. Qed.

Lemma normpath_rooted (k : nat) (body : string) :
  forallb Path.plain (Str.split body) = true ->
  Str.join (fold_left (Path.normpath_step k) (Str.split body) []) = body.
Proof. intros H. by rewrite normpath_loop_plain, app_nil_l, join_split. Qed.

(** A normalized path is a fixed point of [normpath], hence of [abspath]. *)
Lemma normalized_normpath (p : string) :
  Path.normalized p = true -> Path.normpath p = p.
Proof.
  unfold Path.normalized, Path.isabs.
  intros [[r ->]%startswith_slash Hbody]%andb_true_iff.
  unfold Str.slash in *.
  destruct r as [|a r]; [done|].
  rewrite !startswith_cons, Ascii.eqb_refl in Hbody. cbn [andb Str.startswith] in Hbody.
  unfold Path.normpath. cbn [String.eqb]. 
  rewrite !startswith_cons, Ascii.eqb_refl. cbn [andb Str.startswith].
  destruct (Ascii.eqb_spec "/" a) as [<-|Hne].
  - cbn [andb Str.drop] in *.
    destruct r as [|b r]; [done|].
    apply orb_true_iff in Hbody as [[=]|Hplain].
    assert (Ascii.eqb "/" b = false) as Hb.
    { destruct (Ascii.eqb_spec "/" b) as [<-|]; [by simpl in Hplain | done]. }
    rewrite ?startswith_cons, Hb. cbn [andb negb].
    change (Str.split (String "/" (String "/" (String b r))))
      with ("" :: "" :: Str.split (String b r)).
    cbn [fold_left]. change (Path.normpath_step 2 [] "") with (@nil string).
    change (Path.normpath_step 2 [] "") with (@nil string).
    by rewrite (normpath_rooted 2 _ Hplain).
  - cbn [andb Str.drop] in *.
    apply orb_true_iff in Hbody as [[=]|Hplain].
    change (Str.split (String "/" (String a r))) with ("" :: Str.split (String a r)).
    cbn [fold_left]. change (Path.normpath_step 1 [] "") with (@nil string).
    by rewrite (normpath_rooted 1 _ Hplain).
Qed.

(** [normalized] says what it is meant to say. *)
Lemma normalized_iff (p : string) :
  Path.normalized p = true <-> Path.isabs p = true /\ Path.normpath p = p.
Proof.
  split.
  - intros H. split; [by apply normalized_isabs | by apply normalized_normpath].
  - intros [Habs Hfix]. rewrite <- Hfix. by apply normpath_normalized.
Qed.

Lemma normalized_abspath_in (cwd p : string) :
  Path.normalized p = true -> Path.abspath_in cwd p = p.
Proof.
  intros Hn. unfold Path.abspath_in.
  rewrite (normalized_isabs p Hn). by apply normalized_normpath.
Qed.

(** ** The graph builder *)

Lemma add_imports_rels (source : string) (l : list string) (tx : GraphStore)
    (a b : string) :
  (a, b) ∈ rels (add_imports source tx l)
  <-> (a, b) ∈ rels tx \/ (a = source /\ b ∈ l /\ b <> "").
Proof.
  revert tx. unfold add_imports.
  induction l as [|t l IH]; intros tx; simpl.
  - split; [by left|]. intros [?|(_ & []%elem_of_nil & _)]; done.
  - rewrite IH. destruct (String.eqb_spec t "") as [->|Hne]; simpl.
    + rewrite elem_of_cons. intuition congruence.
    + rewrite elem_of_union, elem_of_singleton, elem_of_cons. intuition congruence.
Qed.

Lemma add_imports_nodes (source : string) (l : list string) (tx : GraphStore)
    (x : string) :
  x ∈ nodes (add_imports source tx l)
  <-> x ∈ nodes tx \/ (x ∈ l /\ x <> "").
Proof.
  revert tx. unfold add_imports.
  induction l as [|t l IH]; intros tx; simpl.
  - split; [by left|]. intros [?|([]%elem_of_nil & _)]; done.
  - rewrite IH. destruct (String.eqb_spec t "") as [->|Hne]; simpl.
    + rewrite elem_of_cons. intuition congruence.
    + rewrite elem_of_union, elem_of_singleton, elem_of_cons. intuition congruence.
Qed.

Lemma build_rels (l : list ImportInfo) (tx : GraphStore) (a b : string) :
  (a, b) ∈ rels (build tx l)
  <-> (a, b) ∈ rels tx
      \/ exists fi, fi ∈ l /\ file fi = a /\ b ∈ imports fi /\ b <> "".
Proof.
  revert tx. induction l as [|fi l IH]; intros tx; simpl.
  - split; [by left|]. intros [?|(? & []%elem_of_nil & _)]; done.
  - rewrite IH, add_imports_rels. simpl. split.
    + intros [[?|(-> & ? & ?)]|(fj & ? & ?)]; [by left| |].
      * right. exists fi. by rewrite elem_of_cons; eauto.
      * right. exists fj. by rewrite elem_of_cons; eauto.
    + intros [?|(fj & [->|?]%elem_of_cons & <- & ? & ?)]; eauto 10.
Qed.

Lemma build_nodes (l : list ImportInfo) (tx : GraphStore) (x : string) :
  x ∈ nodes (build tx l)
  <-> x ∈ nodes tx
      \/ exists fi, fi ∈ l /\ (x = file fi \/ (x ∈ imports fi /\ x <> "")).
Proof.
  revert tx. induction l as [|fi l IH]; intros tx; simpl.
  - split; [by left|]. intros [?|(? & []%elem_of_nil & _)]; done.
  - rewrite IH, add_imports_nodes. simpl.
    rewrite elem_of_union, elem_of_singleton. split.
    + intros [[[->|?]|?]|(fj & ? & ?)]; [| by left | |].
      * right. exists fi. rewrite elem_of_cons. eauto.
      * right. exists fi. rewrite elem_of_cons. eauto.
      * right. exists fj. rewrite elem_of_cons. eauto.
    + intros [?|(fj & [->|?]%elem_of_cons & ?)]; eauto 10.
      destruct H; eauto.
Qed.

Lemma create_rels (graph : GraphStore) (records : list ImportInfo) (a b : string) :
  (a, b) ∈ rels (create_file_dependency_graph graph records)
  <-> exists fi, fi ∈ records /\ file fi = a /\ b ∈ imports fi /\ b <> "".
Proof.
  unfold create_file_dependency_graph. rewrite build_rels. simpl.
  split; [|by right]. intros [[]%not_elem_of_empty|?]; done.
Qed.

Lemma create_nodes (graph : GraphStore) (records : list ImportInfo) (x : string) :
  x ∈ nodes (create_file_dependency_graph graph records)
  <-> exists fi, fi ∈ records /\ (x = file fi \/ (x ∈ imports fi /\ x <> "")).
Proof.
  unfold create_file_dependency_graph. rewrite build_nodes. simpl.
  split; [|by right]. intros [[]%not_elem_of_empty|?]; done.
Qed.

(** ** The transitive query *)

Lemma tc_mono {A : Type} (R R' : relation A) (x y : A) :
  (forall a b, R a b -> R' a b) -> tc R x y -> tc R' x y.
Proof.
  intros Hsub. induction 1 as [x y H|x y z H _ IH].
  - by apply tc_once, Hsub.
  - eapply tc_l; [by apply Hsub | done].
Qed.

Lemma expand_unfold (n : nat) (E : gset (string * string)) (f d : string) :
  d ∈ expand (S n) E f
  <-> exists b, (f, b) ∈ E /\ (d = b \/ d ∈ expand n (E ∖ {[(f, b)]}) b).
Proof.
  simpl. rewrite list_elem_of_bind. split.
  - intros ([a b] & Hd & Hr%elem_of_elements). simpl in Hd.
    destruct (decide (a = f)) as [->|]; [|by apply elem_of_nil in Hd].
    apply elem_of_cons in Hd. eauto.
  - intros (b & Hr & Hd). exists (f, b). rewrite elem_of_elements. split; [|done].
    simpl. rewrite decide_True by done. apply elem_of_cons. done.
Qed.

(** Every file the expansion reaches is reachable in one or more hops. *)
Lemma expand_sound (n : nat) (E : gset (string * string)) (f d : string) :
  d ∈ expand n E f -> tc (imports_rel E) f d.
Proof.
  revert E f. induction n as [|n IH]; intros E f Hd.
  - by apply elem_of_nil in Hd.
  - apply expand_unfold in Hd as (b & Hr & [->|Hd]); [by apply tc_once|].
    eapply tc_l; [exact Hr|]. apply IH in Hd.
    eapply tc_mono; [|exact Hd]. unfold imports_rel.
    by intros a c [? _]%elem_of_difference.
Qed.

(** A walk that starts at [f] can be cut at its last visit of [f]: what is
    left takes one relationship out of [f] and then none. *)
Lemma tc_last_visit (E : gset (string * string)) (f x z : string) :
  tc (imports_rel E) x z ->
  tc (fun a b => (a, b) ∈ E /\ a <> f) x z
  \/ exists b, (f, b) ∈ E /\ (b = z \/ tc (fun a b => (a, b) ∈ E /\ a <> f) b z).
Proof.
  induction 1 as [x z H|x y z H _ IH].
  - destruct (decide (x = f)) as [->|Hne]; [right; eauto|].
    left. by apply tc_once.
  - destruct IH as [IH|IH]; [|by right].
    destruct (decide (x = f)) as [->|Hne]; [right; eauto|].
    left. eapply tc_l; [|exact IH]. done.
Qed.

Lemma tc_first_hop (E : gset (string * string)) (f d : string) :
  tc (imports_rel E) f d ->
  exists b, (f, b) ∈ E /\ (b = d \/ tc (imports_rel (E ∖ {[(f, b)]})) b d).
Proof.
  intros [H|(b & Hb & H)]%(tc_last_visit E f).
  - inversion H as [? ? [_ Hne]|? ? ? [_ Hne]]; done.
  - exists b. split; [done|]. destruct H as [->|H]; [by left|]. right.
    eapply tc_mono; [|exact H]. unfold imports_rel. intros a c [? ?].
    apply elem_of_difference. split; [done|]. rewrite elem_of_singleton. congruence.
Qed.

Lemma size_remove (E : gset (string * string)) (r : string * string) :
  r ∈ E -> size (E ∖ {[r]}) < size E.
Proof.
  intros Hr. rewrite size_difference by (by apply singleton_subseteq_l).
  rewrite size_singleton. assert (size E <> 0); [|lia].
  intros ->%size_empty_inv%leibniz_equiv. by apply not_elem_of_empty in Hr.
Qed.

(** With a unit of fuel for each relationship, the expansion reaches every
    file that is reachable in one or more hops. *)
Lemma expand_complete (n : nat) (E : gset (string * string)) (f d : string) :
  size E <= n -> tc (imports_rel E) f d -> d ∈ expand n E f.
Proof.
  revert E f. induction n as [|n IH]; intros E f Hn Hd;
    apply tc_first_hop in Hd as (b & Hr & Hd).
  - apply size_remove in Hr. lia.
  - apply expand_unfold. exists b. split; [done|].
    destruct Hd as [->|Hd]; [by left|]. right.
    apply IH; [|done]. apply size_remove in Hr. lia.
Qed.

(** Fuel beyond the number of relationships changes nothing: no path is
    ever cut short by the fuel [dependencies_of] provides. *)
Lemma expand_fuel (n m : nat) (E : gset (string * string)) (f : string) :
  size E <= n -> size E <= m -> expand n E f = expand m E f.
Proof.
  revert m E f. induction n as [|n IH]; intros m E f Hn Hm.
  - assert (E = ∅) as -> by (apply leibniz_equiv, size_empty_inv; lia).
    destruct m; [done|]. simpl. by rewrite elements_empty.
  - destruct m as [|m].
    + assert (E = ∅) as -> by (apply leibniz_equiv, size_empty_inv; lia).
      simpl. by rewrite elements_empty.
    + simpl. apply Forall_bind_ext, Forall_forall.
      intros r Hr%elem_of_elements. destruct (decide (r.1 = f)); [|done].
      f_equal. apply size_remove in Hr. apply IH; lia.
Qed.

Lemma py_remove_elem_of (x y : string) (l : list string) :
  NoDup l -> y ∈ py_remove x l <-> y ∈ l /\ y <> x.
Proof.
  induction 1 as [|z l Hz Hl IH]; simpl.
  - split; [by intros ?%elem_of_nil | by intros [?%elem_of_nil _]].
  - destruct (decide (x = z)) as [<-|Hne].
    + rewrite elem_of_cons. split; [|by intros [[->|?] ?]].
      intros Hy. split; [by right|]. by intros ->.
    + rewrite !elem_of_cons, IH. intuition congruence.
Qed.

Lemma py_remove_NoDup (x : string) (l : list string) :
  NoDup l -> NoDup (py_remove x l).
Proof.
  induction 1 as [|z l Hz Hl IH]; simpl; [constructor|].
  destruct (decide (x = z)); [done|]. constructor; [|done].
  rewrite py_remove_elem_of by done. tauto.
Qed.

Lemma without_self_elem_of (f d : string) (deps : list string) :
  NoDup deps -> d ∈ without_self f deps <-> d ∈ deps /\ d <> f.
Proof.
  intros Hnd. unfold without_self. case_bool_decide as Hin.
  - by apply py_remove_elem_of.
  - split; [|tauto]. intros Hd. split; [done|]. by intros ->.
Qed.

Lemma dependency_map_lookup (D : string -> list string) (fs : list string)
    (m : gmap string (list string)) (f : string) :
  foldl (fun dependency_map record =>
           <[record.1 := without_self record.1 record.2]> dependency_map)
        m (map (fun f => (f, D f)) fs) !! f
  = if bool_decide (f ∈ fs) then Some (without_self f (D f)) else m !! f.
Proof.
  revert m. induction fs as [|x fs IH]; intros m; simpl; [done|].
  rewrite IH. case_bool_decide as Hin.
  - by rewrite bool_decide_true by (by right).
  - destruct (decide (x = f)) as [->|Hne].
    + rewrite bool_decide_true by (by left). by rewrite lookup_insert_eq.
    + rewrite lookup_insert_ne by done.
      rewrite bool_decide_false; [done|]. by intros [->|?]%elem_of_cons.
Qed.

Lemma get_app_folder_dependencies_lookup (graph : GraphStore) (f : string) :
  get_app_folder_dependencies graph !! f
  = if bool_decide (f ∈ nodes graph /\ Str.contains "/app/" f = true)
    then Some (without_self f (dependencies_of graph f)) else None.
Proof.
  unfold get_app_folder_dependencies, run_query.
  rewrite (dependency_map_lookup (dependencies_of graph)), lookup_empty.
  assert (f ∈ filter (fun f => Str.contains "/app/" f) (elements (nodes graph))
          <-> f ∈ nodes graph /\ Str.contains "/app/" f = true) as Hiff.
  { rewrite list_elem_of_filter, elem_of_elements, Is_true_true. tauto. }
  by rewrite (bool_decide_ext _ _ Hiff).
Qed.

Lemma dependencies_of_elem_of (graph : GraphStore) (f d : string) :
  d ∈ dependencies_of graph f <-> tc (imports_rel (rels graph)) f d.
Proof.
  unfold dependencies_of. rewrite elem_of_remove_dups. split.
  - apply expand_sound.
  - by apply expand_complete.
Qed.

(** ** The resolver *)

Lemma bind_Ok {A B : Type} (a : A) (f : A -> result B) : (Ok a ≫= f) = f a.
Proof. reflexivity. Qed.

Lemma bind_Raise {A B : Type} (e : exn) (f : A -> result B) : (Raise e ≫= f) = Raise e.
Proof. reflexivity. Qed.

Lemma foldM_cons {A B : Type} (f : B -> A -> result B) (a : A) (l : list A) (b : B) :
  foldM f (a :: l) b = (b' ← f b a; foldM f l b').
Proof. reflexivity. Qed.

Lemma foldM_app {A B : Type} (f : B -> A -> result B) (l1 l2 : list A) (b : B) :
  foldM f (l1 ++ l2)%list b = (b' ← foldM f l1 b; foldM f l2 b').
Proof.
  revert b. induction l1 as [|a l1 IH]; intros b; simpl; [done|].
  destruct (f b a) as [b'|e]; simpl; [apply IH | done].
Qed.

Lemma find_app {A : Type} (P : A -> bool) (l1 l2 : list A) :
  List.find P (l1 ++ l2)%list
  = match List.find P l1 with Some x => Some x | None => List.find P l2 end.
Proof. induction l1 as [|a l1 IH]; simpl; [done|]. by destruct (P a). Qed.

Section Resolver.
Context {W : World}.

Lemma first_file_find (candidates : list string) :
  first_file candidates = abspath <$> List.find isfile candidates.
Proof.
  induction candidates as [|c l IH]; simpl; [done|]. by destruct (isfile c).
Qed.

Lemma resolve_import_path_find (base_dir import_path : string) :
  resolve_import_path base_dir import_path
  = (p ← apply_alias base_dir import_path;
     Ok (abspath <$> List.find isfile (candidates base_dir p))).
Proof.
  unfold resolve_import_path. destruct (apply_alias _ _) as [p|e]; [|done].
  unfold mbind, result_bind. rewrite !first_file_find.
  change (candidates base_dir p)
    with (direct_candidates base_dir p ++ index_candidates base_dir p)%list.
  rewrite find_app.
  by destruct (List.find isfile (direct_candidates base_dir p)),
              (List.find isfile (index_candidates base_dir p)).
Qed.

Lemma apply_alias_plain (base_dir import_path : string) :
  Str.startswith "@/" import_path = false ->
  apply_alias base_dir import_path = Ok import_path.
Proof. unfold apply_alias. by intros ->. Qed.

(** A resolved target is what [abspath] returned for a candidate. *)
Lemma resolve_import_path_abspath (base_dir import_path p : string) :
  resolve_import_path base_dir import_path = Ok (Some p) ->
  exists candidate, isfile candidate = true /\ p = abspath candidate.
Proof.
  rewrite resolve_import_path_find.
  destruct (apply_alias _ _) as [q|e]; [|done]. unfold mbind, result_bind.
  destruct (List.find isfile (candidates base_dir q)) as [c|] eqn:Hfind; [|done].
  intros [= <-]. apply List.find_some in Hfind as [_ Hc]. eauto.
Qed.

Lemma find_none_all (l : list string) :
  Forall (fun c => isfile c = false) l -> List.find isfile l = None.
Proof. induction 1 as [|c l Hc _ IH]; simpl; [done|]. by rewrite Hc. Qed.

(** Where the lookup of the alias returns, a specifier none of whose
    candidates is a file resolves to [None] and is recorded as written. *)
Lemma record_import_unresolved (base_dir import_path p : string)
    (imports : list string) :
  Str.startswith "next" import_path = false ->
  local_looking import_path = true ->
  apply_alias base_dir import_path = Ok p ->
  Forall (fun c => isfile c = false) (candidates base_dir p) ->
  resolve_import_path base_dir import_path = Ok None
  /\ record_import base_dir imports import_path = Ok (imports ++ [import_path])%list.
Proof.
  intros Hnext Hlocal Halias Hnone.
  assert (resolve_import_path base_dir import_path = Ok None) as Hres.
  { rewrite resolve_import_path_find, Halias. unfold mbind, result_bind.
    by rewrite find_none_all. }
  split; [done|]. unfold record_import. by rewrite Hnext, Hlocal, Hres.
Qed.

Lemma scan_node_specifier (file_bytes base_dir : string) (imports : list string)
    (n : Node) :
  scan_node file_bytes base_dir imports n
  = match import_specifier file_bytes n with
    | Some r => import_path ← r; record_import base_dir imports import_path
    | None => Ok imports
    end.
Proof. reflexivity. Qed.

Lemma foldM_scan_node (file_bytes base_dir : string) (l : list Node)
    (imports : list string) :
  foldM (scan_node file_bytes base_dir) l imports
  = foldM (fun imports r => import_path ← r; record_import base_dir imports import_path)
          (omap (import_specifier file_bytes) l) imports.
Proof.
  revert imports. induction l as [|n l IH]; intros imports; [done|].
  rewrite foldM_cons, scan_node_specifier.
  change (omap (import_specifier file_bytes) (n :: l))
    with (match import_specifier file_bytes n with
          | Some r => r :: omap (import_specifier file_bytes) l
          | None => omap (import_specifier file_bytes) l
          end).
  destruct (import_specifier file_bytes n) as [[import_path|e]|];
    rewrite ?foldM_cons, ?bind_Ok, ?bind_Raise; [|done|apply IH].
  destruct (record_import base_dir imports import_path);
    rewrite ?bind_Ok, ?bind_Raise; [apply IH | done].
Qed.

(** [extract_imports] in terms of the specifiers in document order. *)
Lemma extract_imports_specifiers (file_path file_bytes : string) :
  read_bytes file_path = Some file_bytes ->
  extract_imports file_path
  = (imports ← foldM (fun imports r =>
                        import_path ← r;
                        record_import (Path.dirname file_path) imports import_path)
                     (omap (import_specifier file_bytes)
                           (preorder (parser_ts_parse file_bytes))) [];
     Ok (mkInfo file_path imports)).
Proof.
  intros Hread. unfold extract_imports, parse_file, read_file_bytes.
  rewrite Hread. simpl. by rewrite traverse_tree_preorder, foldM_scan_node.
Qed.

End Resolver.

(** ** The extension of a candidate survives [abspath] *)

Lemma length_ge3_plain (c : string) : 3 <= String.length c -> Path.plain c = true.
Proof.
  destruct c as [|a [|b [|d r]]]; simpl; try lia. intros _.
  unfold Path.plain. simpl.
  destruct (Ascii.eqb a "."); [|done]. simpl.
  destruct (Ascii.eqb b "."); done.
Qed.

Lemma split_app_last (z e : string) :
  no_slash e ->
  exists init lc,
    Str.split z = (init ++ [lc])%list /\ Str.split (z ++ e) = (init ++ [String.append lc e])%list.
Proof.
  intros He. induction z as [|a z (init & lc & Hz & Hze)].
  - exists [], "". by rewrite app_nil_l_str.
  - rewrite app_cons_str. simpl. rewrite Hz, Hze.
    destruct (Ascii.eqb a Str.slash).
    + by exists ("" :: init), lc.
    + destruct init as [|h t]; simpl.
      * by exists [], (String a lc).
      * by exists (String a h :: t), lc.
Qed.

Lemma join_snoc (l : list string) (x : string) :
  exists pre, Str.join (l ++ [x]) = pre ++ x.
Proof.
  induction l as [|a l [pre IH]]; [by exists ""|].
  exists (a ++ "/" ++ pre). rewrite !app_assoc_str, <- IH.
  simpl. by destruct (l ++ [x])%list eqn:E; [destruct l|].
Qed.

Lemma normpath_step_plain (k : nat) (acc : list string) (c : string) :
  Path.plain c = true -> Path.normpath_step k acc c = (acc ++ [c])%list.
Proof. intros Hc. by apply (normpath_loop_plain k [c] acc); simpl; rewrite Hc. Qed.

(** [normpath] keeps a suffix that makes the last component at least three
    characters long. *)
Lemma normpath_keeps_suffix (z e : string) :
  no_slash e -> 3 <= String.length e ->
  exists w, Path.normpath (z ++ e) = w ++ e.
Proof.
  intros He Hlen.
  destruct (split_app_last z e He) as (init & lc & _ & Hsplit).
  assert (Path.plain (lc ++ e) = true) as Hplain
    by (apply length_ge3_plain; rewrite length_app; lia).
  unfold Path.normpath.
  destruct (String.eqb_spec (z ++ e) "") as [Hnil|_].
  { apply (f_equal String.length) in Hnil. rewrite length_app in Hnil.
    simpl in Hnil. lia. }
  rewrite Hsplit, fold_left_app. cbn [fold_left].
  rewrite normpath_step_plain by done.
  set (k := if Str.startswith "/" (z ++ e) then _ else _).
  destruct (join_snoc (fold_left (Path.normpath_step k) init []) (lc ++ e))
    as [pre ->].
  assert (forall lead, exists w,
            (if String.eqb (lead ++ pre ++ lc ++ e) "" then "."
             else lead ++ pre ++ lc ++ e) = w ++ e) as Hout.
  { intros lead. exists (lead ++ pre ++ lc).
    destruct (String.eqb_spec (lead ++ pre ++ lc ++ e) "") as [Hnil|_].
    - apply (f_equal String.length) in Hnil. rewrite !length_app in Hnil.
      simpl in Hnil. lia.
    - by rewrite !app_assoc_str. }
  destruct k as [|[|k]].
  - apply (Hout "").
  - apply (Hout "/").
  - apply (Hout "//").
Qed.

Lemma join_app_r (a y e : string) : exists y', Path.join a (y ++ e) = y' ++ e.
Proof.
  unfold Path.join. destruct (Str.startswith "/" (y ++ e)); [by exists y|].
  destruct (_ || _).
  - exists (a ++ y). by rewrite app_assoc_str.
  - exists (a ++ "/" ++ y). by rewrite !app_assoc_str.
Qed.

Lemma abspath_in_keeps_suffix (cwd y e : string) :
  no_slash e -> 3 <= String.length e ->
  exists w, Path.abspath_in cwd (y ++ e) = w ++ e.
Proof.
  intros He Hlen. unfold Path.abspath_in. destruct (Path.isabs (y ++ e)).
  - by apply normpath_keeps_suffix.
  - destruct (join_app_r cwd y e) as [y' ->]. by apply normpath_keeps_suffix.
Qed.

(** ** The last component of a normalized path *)

Lemma no_slash_cons (a : ascii) (r : string) :
  no_slash (String a r) <-> a <> Str.slash /\ no_slash r.
Proof.
  unfold no_slash. simpl. pose proof (split_nonempty r) as Hne.
  destruct (Ascii.eqb_spec a Str.slash) as [->|Ha].
  - split; [done | by intros [[] _]].
  - destruct (Str.split r) as [|h t]; [done|]. split.
    + intros [= -> ->]. done.
    + by intros [_ [= -> ->]].
Qed.

Lemma upto_last_slash_no_slash (c : string) :
  no_slash c -> Str.upto_last_slash c = "".
Proof.
  induction c as [|a r IH]; [done|]. intros [Ha Hr]%no_slash_cons. simpl.
  rewrite (IH Hr). by destruct (Ascii.eqb_spec a Str.slash).
Qed.

Lemma upto_last_slash_app (x c : string) :
  no_slash c -> Str.upto_last_slash (x ++ String Str.slash c) = x ++ "/".
Proof.
  intros Hc. induction x as [|a x IH]; str_simpl; simpl.
  - by rewrite (upto_last_slash_no_slash c Hc).
  - rewrite IH. by destruct x.
Qed.

Lemma last_char_no_slash (c : string) :
  no_slash c -> c <> "" -> exists y b, c = y ++ String b "" /\ b <> Str.slash.
Proof.
  induction c as [|a r IH]; [done|]. intros [Ha Hr]%no_slash_cons _.
  destruct r as [|a' r'].
  - by exists "", a.
  - destruct (IH Hr) as (y & b & -> & Hb); [done|]. by exists (String a y), b.
Qed.

Lemma rstrip_after_char (c b : ascii) (z : string) :
  b <> c -> Str.rstrip c (z ++ String b (String c "")) = z ++ String b "".
Proof.
  intros Hb. induction z as [|a z IH]; str_simpl; simpl.
  - rewrite Ascii.eqb_refl. by destruct (Ascii.eqb_spec b c).
  - rewrite IH. by destruct z.
Qed.

Lemma all_slashes_with_char (y z : string) (a : ascii) :
  a <> Str.slash -> Str.all_slashes (y ++ String a z) = false.
Proof.
  intros Ha. induction y as [|b y IH]; str_simpl; simpl.
  - by destruct (Ascii.eqb_spec a Str.slash).
  - rewrite IH. apply andb_false_r.
Qed.

Lemma join_snoc_nonempty (comps : list string) (t : string) :
  comps <> [] -> Str.join (comps ++ [t]) = Str.join comps ++ "/" ++ t.
Proof.
  induction comps as [|c comps IH]; [done|]. intros _.
  destruct comps as [|c' comps]; [done|].
  change (Str.join ((c :: c' :: comps) ++ [t]))
    with (c ++ "/" ++ Str.join ((c' :: comps) ++ [t])).
  rewrite IH by done.
  change (Str.join (c :: c' :: comps)) with (c ++ "/" ++ Str.join (c' :: comps)).
  by rewrite !app_assoc_str.
Qed.

Lemma join_good_last (comps : list string) :
  Forall good comps -> comps <> [] ->
  exists y b, Str.join comps = y ++ String b "" /\ b <> Str.slash.
Proof.
  intros Hall Hne. destruct (exists_last Hne) as (init & c & ->).
  apply Forall_app in Hall as [_ [[Hplain Hns] _]%Forall_cons].
  destruct (last_char_no_slash c Hns) as (y & b & -> & Hb); [by destruct c|].
  destruct (join_snoc init (y ++ String b "")) as [pre ->].
  exists (pre ++ y), b. by rewrite app_assoc_str.
Qed.

Lemma normalized_form_inv (p : string) :
  Path.normalized p = true ->
  exists lead comps,
    (lead = "/" \/ lead = "//") /\ Forall good comps /\ p = lead ++ Str.join comps.
Proof.
  intros [Habs Hfix]%normalized_iff.
  destruct (normpath_abs_form p Habs) as (lead & comps & Hl & Hc & Hp).
  exists lead, comps. by rewrite <- Hfix at 1.
Qed.

Lemma endswith_slash_snoc (y : string) (b : ascii) :
  Str.endswith_slash (y ++ String b "") = Ascii.eqb b Str.slash.
Proof.
  induction y as [|a y IH]; [done|]. rewrite app_cons_str.
  simpl. rewrite IH. by destruct y.
Qed.

(** ** What a record holds *)

Lemma foldM_invariant {A B : Type} (f : B -> A -> result B) (I : B -> Prop)
    (l : list A) (b res : B) :
  (forall b a b', a ∈ l -> I b -> f b a = Ok b' -> I b') ->
  I b -> foldM f l b = Ok res -> I res.
Proof.
  revert b. induction l as [|a l IH]; intros b Hstep Hb; simpl.
  - by intros [= <-].
  - destruct (f b a) as [b'|e] eqn:Hf; simpl; [|done].
    apply IH.
    + intros b0 a0 b0' Ha0. apply Hstep. by right.
    + eapply Hstep; [by left | exact Hb | exact Hf].
Qed.

Section Records.
Context {W : World}.

(** An entry is a path [abspath] returned or the specifier as written. *)
Lemma record_import_entry (base_dir import_path : string) (imports imports' : list string) :
  record_import base_dir imports import_path = Ok imports' ->
  imports' = imports
  \/ exists t, imports' = (imports ++ [t])%list
       /\ ((exists candidate, isfile candidate = true /\ t = abspath candidate)
           \/ (t = import_path /\ Str.startswith "next" import_path = false)).
Proof.
  unfold record_import.
  destruct (Str.startswith "next" import_path) eqn:Hnext; [intros [= <-]; by left|].
  destruct (local_looking import_path).
  - destruct (resolve_import_path base_dir import_path) as [[p|]|e] eqn:Hres;
      rewrite ?bind_Ok, ?bind_Raise; [| |done].
    + destruct (negb (String.eqb p "")); intros [= <-]; right; eexists;
        (split; [done|]); [left | by right].
      by apply resolve_import_path_abspath in Hres.
    + intros [= <-]. right. eexists. split; [done|]. by right.
  - intros [= <-]. right. eexists. split; [done|]. by right.
Qed.

Lemma extract_imports_entries (file_path : string) (fi : ImportInfo) :
  extract_imports file_path = Ok fi ->
  file fi = file_path
  /\ exists file_bytes,
       read_bytes file_path = Some file_bytes
       /\ Forall (fun t =>
                    (exists candidate, isfile candidate = true /\ t = abspath candidate)
                    \/ (Ok t ∈ omap (import_specifier file_bytes)
                                    (preorder (parser_ts_parse file_bytes))
                        /\ Str.startswith "next" t = false))
                 (imports fi).
Proof.
  destruct (read_bytes file_path) as [file_bytes|] eqn:Hread.
  2:{ unfold extract_imports, parse_file, read_file_bytes. by rewrite Hread. }
  rewrite (extract_imports_specifiers _ _ Hread).
  destruct (foldM _ _ _) as [imports|e] eqn:Hfold; rewrite ?bind_Ok, ?bind_Raise; [|done].
  intros [= <-]. split; [done|]. exists file_bytes. split; [done|]. simpl.
  revert Hfold. apply foldM_invariant; [|done].
  intros acc [s|e] acc' Hin Hacc; rewrite ?bind_Ok, ?bind_Raise; [|done].
  intros [->|(t & -> & Ht)]%record_import_entry; [done|].
  apply Forall_app. split; [done|]. constructor; [|done].
  destruct Ht as [?|[-> ?]]; [by left | by right].
Qed.

Lemma abspath_normalized (p : string) :
  Path.isabs getcwd = true -> Path.normalized (abspath p) = true.
Proof. apply abspath_in_normalized. Qed.

Lemma isabs_not_next (p : string) :
  Path.isabs p = true -> Str.startswith "next" p = false.
Proof. intros [r ->]%startswith_slash. reflexivity. Qed.

Lemma resolve_import_path_nonempty (base_dir import_path p : string) :
  resolve_import_path base_dir import_path = Ok (Some p) -> p <> "".
Proof.
  intros (c & _ & ->)%resolve_import_path_abspath. apply abspath_in_nonempty.
Qed.

Lemma record_import_iff (base_dir import_path : string) (imports imports' : list string) :
  record_import base_dir imports import_path = Ok imports'
  <-> (Str.startswith "next" import_path = true /\ imports' = imports)
      \/ (Str.startswith "next" import_path = false
          /\ exists t, entry_of base_dir import_path t
                       /\ imports' = (imports ++ [t])%list).
Proof.
  unfold record_import, entry_of.
  destruct (Str.startswith "next" import_path).
  { split; [intros [= <-]; by left | by intros [[_ ->]|[[=] _]]]. }
  destruct (local_looking import_path).
  - destruct (resolve_import_path base_dir import_path) as [[p|]|e] eqn:Hres;
      rewrite ?bind_Ok, ?bind_Raise.
    + apply resolve_import_path_nonempty in Hres.
      apply String.eqb_neq in Hres. rewrite Hres. simpl. split.
      * intros [= <-]. right. split; [done|]. exists p. split; [by left | done].
      * intros [[[=] _]|(_ & t & [[= <-]|[[=] _]] & ->)]. done.
    + split.
      * intros [= <-]. right. split; [done|]. eexists. split; [by right | done].
      * intros [[[=] _]|(_ & t & [[=]|[_ ->]] & ->)]. done.
    + split; [done|]. intros [[[=] _]|(_ & t & [[=]|[[=] _]] & _)].
  - split.
    + intros [= <-]. right. split; [done|]. by eexists.
    + intros [[[=] _]|(_ & t & -> & ->)]. done.
Qed.

Lemma fold_entries (base_dir : string) (rs : list (result string))
    (acc res : list string) :
  foldM (fun imports r => import_path ← r; record_import base_dir imports import_path)
        rs acc = Ok res
  <-> exists specs news,
        rs = map Ok specs
        /\ res = (acc ++ news)%list
        /\ Forall2 (entry_of base_dir)
                   (filter (fun s => Str.startswith "next" s = false) specs) news.
Proof.
  revert acc res. induction rs as [|r rs IH]; intros acc res.
  - simpl. split.
    + intros [= <-]. exists [], []. by rewrite app_nil_r.
    + intros (specs & news & Hs & -> & Hall). destruct specs; [|done].
      apply Forall2_nil_inv_l in Hall as ->. by rewrite app_nil_r.
  - rewrite foldM_cons. destruct r as [s|e]; rewrite ?bind_Ok, ?bind_Raise.
    2:{ split; [done|]. intros ([|? ?] & ? & [=] & _). }
    split.
    + destruct (record_import base_dir acc s) as [acc1|e] eqn:Hrec;
        rewrite ?bind_Ok, ?bind_Raise; [|done].
      intros (specs & news & -> & -> & Hall)%IH.
      apply record_import_iff in Hrec as [[Hnext ->]|(Hnext & t & Ht & ->)].
      * exists (s :: specs), news. split; [done|]. split; [done|].
        rewrite filter_cons_False by (by rewrite Hnext). done.
      * exists (s :: specs), (t :: news). split; [done|].
        split; [by rewrite <- app_assoc|].
        rewrite filter_cons_True by done. by constructor.
    + intros ([|s' specs] & news & [= <- ->] & -> & Hall).
      destruct (Str.startswith "next" s) eqn:Hnext.
      * rewrite filter_cons_False in Hall by (by rewrite Hnext).
        rewrite (proj2 (record_import_iff base_dir s acc acc))
          by (left; by rewrite Hnext).
        rewrite bind_Ok. apply IH. eauto.
      * rewrite filter_cons_True in Hall by done.
        apply Forall2_cons_inv_l in Hall as (t & news' & Ht & Hall & ->).
        rewrite (proj2 (record_import_iff base_dir s acc (acc ++ [t])%list))
          by (right; eauto).
        rewrite bind_Ok. apply IH. exists specs, news'.
        split; [done|]. split; [by rewrite <- app_assoc | done].
Qed.

Lemma candidates_have_extension (base_dir q c : string) :
  In c (candidates base_dir q) ->
  exists y ext, In ext potential_extensions /\ c = y ++ ext.
Proof.
  unfold candidates.
  change "index.ts" with ("index" ++ ".ts"). change "index.tsx" with ("index" ++ ".tsx").
  change "index.js" with ("index" ++ ".js"). change "index.jsx" with ("index" ++ ".jsx").
  intros Hc. simpl in Hc.
  repeat (destruct Hc as [<-|Hc];
          [match goal with |- context [Path.join ?a (?y ++ ?e)] =>
             destruct (join_app_r a y e) as [y' ->]; exists y', e;
             split; [simpl; tauto | done] end|]).
  done.
Qed.

Lemma resolved_path_suffix (base_dir import_path p : string) :
  resolve_import_path base_dir import_path = Ok (Some p) ->
  exists stem ext,
    In ext potential_extensions /\ no_slash ext /\ 3 <= String.length ext
    /\ p = stem ++ ext.
Proof.
  rewrite resolve_import_path_find.
  destruct (apply_alias _ _) as [q|e]; [|done]. rewrite bind_Ok.
  destruct (List.find isfile (candidates base_dir q)) as [c|] eqn:Hfind; [|done].
  intros [= <-]. apply List.find_some in Hfind as [Hc _].
  apply candidates_have_extension in Hc as (y & ext & Hext & ->).
  assert (no_slash ext /\ 3 <= String.length ext) as [Hns Hlen].
  { simpl in Hext. destruct Hext as [<-|[<-|[<-|[<-|[]]]]]; split; (done || simpl; lia). }
  destruct (abspath_in_keeps_suffix getcwd y ext Hns Hlen) as [w Hw].
  by exists w, ext.
Qed.

(** The shape of a resolved path: one slash or two, then one component or
    more, joined by single slashes. *)
Lemma resolved_path_form (base_dir import_path p : string) :
  Path.isabs getcwd = true ->
  resolve_import_path base_dir import_path = Ok (Some p) ->
  exists lead comps,
    (lead = "/" \/ lead = "//") /\ comps <> [] /\ Forall good comps
    /\ p = lead ++ Str.join comps.
Proof.
  intros Hcwd Hres.
  destruct (resolved_path_suffix _ _ _ Hres) as (stem & ext & _ & _ & Hlen & Hp).
  apply resolve_import_path_abspath in Hres as (c & _ & Hc).
  pose proof (abspath_normalized c Hcwd) as Hn. rewrite <- Hc in Hn.
  apply normalized_form_inv in Hn as (lead & comps & Hlead & Hall & Hform).
  exists lead, comps. split; [done|]. split; [|done].
  intros ->. rewrite Hp in Hform.
  apply (f_equal String.length) in Hform. rewrite length_app in Hform.
  destruct Hlead as [-> | ->]; simpl in Hform; lia.
Qed.

Lemma resolved_path_no_trailing_slash (base_dir import_path p : string) :
  Path.isabs getcwd = true ->
  resolve_import_path base_dir import_path = Ok (Some p) ->
  Str.endswith_slash p = false.
Proof.
  intros Hcwd (lead & comps & _ & Hne & Hall & ->)%resolved_path_form; [|done].
  destruct (join_good_last comps Hall Hne) as (y & b & -> & Hb).
  rewrite <- app_assoc_str, endswith_slash_snoc.
  by apply Ascii.eqb_neq.
Qed.

Lemma extract_imports_tied (file_path : string) (fi : ImportInfo) :
  extract_imports file_path = Ok fi ->
  file fi = file_path
  /\ exists file_bytes specs,
       read_bytes file_path = Some file_bytes
       /\ omap (import_specifier file_bytes)
               (preorder (parser_ts_parse file_bytes)) = map Ok specs
       /\ Forall2 (entry_of (Path.dirname file_path))
                  (filter (fun s => Str.startswith "next" s = false) specs)
                  (imports fi).
Proof.
  destruct (read_bytes file_path) as [file_bytes|] eqn:Hread.
  2:{ unfold extract_imports, parse_file, read_file_bytes. by rewrite Hread. }
  rewrite (extract_imports_specifiers _ _ Hread).
  destruct (foldM _ _ _) as [imports|e] eqn:Hfold;
    rewrite ?bind_Ok, ?bind_Raise; [|done].
  intros [= <-]. split; [done|].
  apply fold_entries in Hfold as (specs & news & Hspecs & -> & Hall).
  by exists file_bytes, specs.
Qed.

End Records.

(** * The specification, property by property *)

Section Specification.
Import Sample.

Ltac by_compute := vm_compute; first [reflexivity | exact I | done].

(** C1 (the code departs from the specification).  Within one configuration
    scope an ["@/"] specifier should resolve to the same path for every
    importer, and to a path under the configuration directory joined with
    [baseUrl].  The
    rewritten specifier is joined to the importer's directory instead: in the
    project [/proj], configured with [baseUrl] "src", the directories
    [/proj], [/proj/app] and [/proj/app/admin] have the same nearest
    [tsconfig.json], and ["@/lib/util"] resolves from them to three different
    results, one of them a file outside [/proj/src]. *)
Theorem alias_resolved_against_importer_dir :
  @find_tsconfig_json alias_world "/proj" = Some "/proj/tsconfig.json"
  /\ @find_tsconfig_json alias_world "/proj/app" = Some "/proj/tsconfig.json"
  /\ @find_tsconfig_json alias_world "/proj/app/admin" = Some "/proj/tsconfig.json"
  /\ @get_tsconfig_base_url alias_world "/proj/app" = Ok (JStr "src")
  /\ @get_tsconfig_base_url alias_world "/proj/app/admin" = Ok (JStr "src")
  /\ @resolve_import_path alias_world "/proj" "@/lib/util"
     = Ok (Some "/proj/src/lib/util.ts")
  /\ @resolve_import_path alias_world "/proj/app" "@/lib/util"
     = Ok (Some "/proj/app/src/lib/util.ts")
  /\ @resolve_import_path alias_world "/proj/app/admin" "@/lib/util" = Ok None
  /\ Str.startswith "/proj/src/" "/proj/app/src/lib/util.ts" = false.
Proof. repeat split; by_compute. Qed.

(** C2, as the code has it.  [create_file_dependency_graph] skips the empty
    entries of an imports list and nothing else: the store holds an IMPORTS
    relationship from [a] to [b] exactly when some record has file [a] and
    the non-empty entry [b]; so it holds a self-loop on [a] exactly when a
    record of [a] lists [a] itself. *)
Theorem graph_edges_are_the_nonempty_imports
    (graph : GraphStore) (records : list ImportInfo) (a b : string) :
  ((a, b) ∈ rels (create_file_dependency_graph graph records)
   <-> exists fi, fi ∈ records /\ file fi = a /\ b ∈ imports fi /\ b <> "")
  /\ ((a, a) ∈ rels (create_file_dependency_graph graph records)
      <-> exists fi, fi ∈ records /\ file fi = a /\ a ∈ imports fi /\ a <> "").
Proof. split; apply create_rels. Qed.

(** C2 fails as stated: [app/self.tsx] imports itself, its record lists its
    own path, and the graph built from the record has the self-loop. *)
Lemma self_import_makes_self_loop :
  exists fi,
    @extract_imports app_world "/w/app/self.tsx" = Ok fi
    /\ file fi ∈ imports fi
    /\ (file fi, file fi) ∈ rels (create_file_dependency_graph (mkGraph ∅ ∅) [fi]).
Proof.
  exists (mkInfo "/w/app/self.tsx" ["/w/app/self.tsx"]).
  split; [by_compute|]. split; [by apply list_elem_of_here|].
  apply create_rels.
  eexists. split; [by apply list_elem_of_here|].
  repeat split; [by apply list_elem_of_here | done].
Qed.

(** C3, as the code has it.  Every import target that [resolve_import_path]
    resolves is an absolutized, normalized path: one slash (or exactly two,
    which [normpath] keeps as POSIX has it), then one component or more,
    joined by single slashes, none of them empty, "." or "..".  So it does
    not end in a slash, and [abspath] leaves it as it is.  The imports list
    of a record has one entry for each specifier of the file, in document
    order, that does not start with "next": the resolved path where the
    specifier looks local and resolves, the specifier as it is written
    where it does not.  [create_file_dependency_graph] uses the strings of
    the records unchanged as node identities: the nodes are the [file]
    fields and the non-empty entries of the imports lists. *)
Theorem resolved_targets_are_normalized `{W : World} :
  Path.isabs getcwd = true ->
  (forall base_dir import_path p,
     resolve_import_path base_dir import_path = Ok (Some p) ->
     Path.normalized p = true /\ abspath p = p
     /\ Str.endswith_slash p = false
     /\ exists lead comps,
          (lead = "/" \/ lead = "//") /\ comps <> [] /\ Forall good comps
          /\ p = lead ++ Str.join comps)
  /\ (forall file_path fi,
        extract_imports file_path = Ok fi ->
        exists file_bytes specs,
          read_bytes file_path = Some file_bytes
          /\ omap (import_specifier file_bytes)
                  (preorder (parser_ts_parse file_bytes)) = map Ok specs
          /\ Forall2 (entry_of (Path.dirname file_path))
                     (filter (fun s => Str.startswith "next" s = false) specs)
                     (imports fi))
  /\ (forall base_dir import_path t,
        entry_of base_dir import_path t ->
        (local_looking import_path = true
         /\ resolve_import_path base_dir import_path = Ok (Some t)
         /\ Path.normalized t = true)
        \/ (t = import_path
            /\ (local_looking import_path = false
                \/ resolve_import_path base_dir import_path = Ok None)))
  /\ (forall graph records x,
        x ∈ nodes (create_file_dependency_graph graph records)
        <-> exists fi, fi ∈ records
              /\ (x = file fi \/ (x ∈ imports fi /\ x <> ""))).
Proof.
  intros Hcwd.
  assert (forall base_dir import_path p,
            resolve_import_path base_dir import_path = Ok (Some p) ->
            Path.normalized p = true) as Hnorm.
  { intros base_dir import_path p (c & _ & ->)%resolve_import_path_abspath.
    by apply abspath_normalized. }
  split; [|split; [|split]].
  - intros base_dir import_path p Hres.
    pose proof (Hnorm _ _ _ Hres) as Hn. split; [done|].
    split; [by apply normalized_abspath_in|].
    split; [by eapply resolved_path_no_trailing_slash|].
    by eapply resolved_path_form.
  - intros file_path fi (_ & file_bytes & specs & ? & ? & ?)%extract_imports_tied.
    by exists file_bytes, specs.
  - intros base_dir import_path t. unfold entry_of.
    destruct (local_looking import_path).
    + intros [Hres|[Hres ->]]; [left | right].
      * split; [done|]. split; [done|]. by eapply Hnorm.
      * split; [done | by right].
    + intros ->. right. split; [done | by left].
  - apply create_nodes.
Qed.

Lemma resolved_targets_are_normalized_witness :
  Path.isabs (@getcwd app_world) = true
  /\ @resolve_import_path app_world "app" "./b" = Ok (Some "/w/app/b.tsx")
  /\ Path.normalized "/w/app/b.tsx" = true
  /\ @abspath app_world "/w/app/b.tsx" = "/w/app/b.tsx"
  /\ Str.endswith_slash "/w/app/b.tsx" = false
  /\ exists lead comps,
       (lead = "/" \/ lead = "//") /\ comps <> [] /\ Forall good comps
       /\ "/w/app/b.tsx" = lead ++ Str.join comps.
Proof.
  split; [reflexivity|]. split; [reflexivity|].
  exact (proj1 (@resolved_targets_are_normalized app_world eq_refl)
           "app" "./b" "/w/app/b.tsx" eq_refl).
Defined.

(** C3 fails as stated: scanned under the relative paths [main.py] collects,
    [app/b.tsx] is a node once as the source "app/b.tsx" and once as the
    target "/w/app/b.tsx" of the import in [app/a.tsx]; and the style sheet
    it imports, which no extension resolves, is the node "./globals.css". *)
Lemma node_identities_not_normalized :
  exists records,
    @scan_files app_world ["app/a.tsx"; "app/b.tsx"] = Ok records
    /\ let graph := create_file_dependency_graph (mkGraph ∅ ∅) records in
       "app/b.tsx" ∈ nodes graph
       /\ "/w/app/b.tsx" ∈ nodes graph
       /\ @abspath app_world "app/b.tsx" = "/w/app/b.tsx"
       /\ Path.normalized "app/b.tsx" = false
       /\ "./globals.css" ∈ nodes graph
       /\ Path.normalized "./globals.css" = false.
Proof.
  exists [mkInfo "app/a.tsx" ["/w/app/b.tsx"; "lodash"];
          mkInfo "app/b.tsx" ["./globals.css"]].
  split; [by_compute|]. simpl.
  repeat split; try by_compute.
  all: apply (bool_decide_unpack _); by_compute.
Qed.

(** C4, as the code has it.  The scan loop of [main.py] has no handler: when
    a file of the batch cannot be read, [extract_imports] raises [OSError]
    for it and the batch ends with an exception (that one, or the one an
    earlier file raised); no record is kept and no later file is scanned. *)
Theorem read_failure_aborts_batch `{W : World}
    (before after : list string) (fpath : string) :
  read_bytes fpath = None ->
  extract_imports fpath = Raise OSError
  /\ scan_files (before ++ fpath :: after)
     = match scan_files before with
       | Ok _ => Raise OSError
       | Raise e => Raise e
       end.
Proof.
  intros Hread.
  assert (extract_imports fpath = Raise OSError) as Hex.
  { unfold extract_imports, parse_file, read_file_bytes. by rewrite Hread. }
  split; [done|]. unfold scan_files. rewrite foldM_app.
  destruct (foldM _ before []) as [records|e]; rewrite ?bind_Ok, ?bind_Raise; [|done].
  by rewrite foldM_cons, Hex.
Qed.

Lemma read_failure_aborts_batch_witness :
  @read_bytes app_world "app/missing.tsx" = None
  /\ @scan_files app_world (["app/a.tsx"] ++ "app/missing.tsx" :: ["app/b.tsx"])
     = Raise OSError.
Proof.
  split; [reflexivity|].
  exact (proj2 (@read_failure_aborts_batch app_world
                  ["app/a.tsx"] ["app/b.tsx"] "app/missing.tsx" eq_refl)).
Defined.

(** C4 fails as stated: both other files of the batch scan, but the batch
    with the unreadable file between them yields no records at all. *)
Lemma unreadable_file_aborts_scan :
  @read_bytes app_world "app/missing.tsx" = None
  /\ @extract_imports app_world "app/a.tsx"
     = Ok (mkInfo "app/a.tsx" ["/w/app/b.tsx"; "lodash"])
  /\ @extract_imports app_world "app/b.tsx"
     = Ok (mkInfo "app/b.tsx" ["./globals.css"])
  /\ @scan_files app_world ["app/a.tsx"; "app/missing.tsx"; "app/b.tsx"]
     = Raise OSError.
Proof. repeat split; by_compute. Qed.

(** C5.  [resolve_import_path] returns the first of the eight candidates
    that is a file, the four direct files before the four index files and
    in each group ".ts", ".tsx", ".js", ".jsx".  In particular, when [x.tsx]
    and [x/index.tsx] both exist in the directory (and [x.ts] does not),
    "./x" resolves to the absolute path of [x.tsx]. *)
Theorem direct_file_before_index_file `{W : World} (base_dir : string) :
  (forall import_path,
     resolve_import_path base_dir import_path
     = (p ← apply_alias base_dir import_path;
        Ok (abspath <$> List.find isfile
              [Path.join base_dir (p ++ ".ts");
               Path.join base_dir (p ++ ".tsx");
               Path.join base_dir (p ++ ".js");
               Path.join base_dir (p ++ ".jsx");
               Path.join (Path.join base_dir p) "index.ts";
               Path.join (Path.join base_dir p) "index.tsx";
               Path.join (Path.join base_dir p) "index.js";
               Path.join (Path.join base_dir p) "index.jsx"])))
  /\ (isfile (Path.join base_dir "./x.ts") = false ->
      isfile (Path.join base_dir "./x.tsx") = true ->
      isfile (Path.join (Path.join base_dir "./x") "index.tsx") = true ->
      resolve_import_path base_dir "./x"
      = Ok (Some (abspath (Path.join base_dir "./x.tsx")))).
Proof.
  split; [intros import_path; apply resolve_import_path_find|].
  intros Hts Htsx _. rewrite resolve_import_path_find.
  rewrite apply_alias_plain by reflexivity. rewrite bind_Ok.
  unfold candidates.
  change ("./x" ++ ".ts") with "./x.ts". change ("./x" ++ ".tsx") with "./x.tsx".
  cbn [List.find]. by rewrite Hts, Htsx.
Qed.

Lemma direct_file_before_index_file_witness :
  @isfile precedence_world (Path.join "components" "./x.ts") = false
  /\ @isfile precedence_world (Path.join "components" "./x.tsx") = true
  /\ @isfile precedence_world (Path.join (Path.join "components" "./x") "index.tsx") = true
  /\ @resolve_import_path precedence_world "components" "./x"
     = Ok (Some "/w/components/x.tsx").
Proof.
  split; [reflexivity|]. split; [reflexivity|]. split; [reflexivity|].
  exact (proj2 (@direct_file_before_index_file precedence_world "components")
           eq_refl eq_refl eq_refl).
Defined.

(** C6.  For every file of the store whose path contains "/app/",
    [get_app_folder_dependencies] returns a list without duplicates that
    holds exactly the files reachable from it in one or more IMPORTS hops,
    the file itself excepted, cycle or not.  The traversal uses no
    relationship twice on a path, so it ends: fuel beyond the number of
    relationships changes nothing. *)
Theorem dependencies_never_contain_self (graph : GraphStore) (f : string) :
  f ∈ nodes graph ->
  Str.contains "/app/" f = true ->
  exists deps,
    get_app_folder_dependencies graph !! f = Some deps
    /\ (f ∉ deps)
    /\ NoDup deps
    /\ (forall d, d ∈ deps <-> d <> f /\ tc (imports_rel (rels graph)) f d)
    /\ (forall fuel, size (rels graph) <= fuel ->
          expand fuel (rels graph) f = expand (size (rels graph)) (rels graph) f).
Proof.
  intros Hnode Happ. exists (without_self f (dependencies_of graph f)).
  assert (NoDup (dependencies_of graph f)) as Hnd
    by (unfold dependencies_of; apply NoDup_remove_dups).
  split.
  { rewrite get_app_folder_dependencies_lookup. by rewrite bool_decide_true. }
  split; [rewrite without_self_elem_of by done; tauto|].
  split.
  { unfold without_self. case_bool_decide; [by apply py_remove_NoDup | done]. }
  split.
  - intros d. rewrite without_self_elem_of by done.
    rewrite dependencies_of_elem_of. tauto.
  - intros fuel Hfuel. by apply expand_fuel.
Qed.

Lemma dependencies_never_contain_self_witness :
  "/w/app/a.tsx" ∈ nodes cycle_graph
  /\ Str.contains "/app/" "/w/app/a.tsx" = true
  /\ tc (imports_rel (rels cycle_graph)) "/w/app/a.tsx" "/w/app/a.tsx"
  /\ exists deps,
       get_app_folder_dependencies cycle_graph !! "/w/app/a.tsx" = Some deps
       /\ ("/w/app/a.tsx" ∉ deps).
Proof.
  assert ("/w/app/a.tsx" ∈ nodes cycle_graph) as Hnode
    by (apply (bool_decide_unpack _); vm_compute; exact I).
  split; [exact Hnode|]. split; [reflexivity|]. split.
  { apply (tc_l _ _ "/w/app/b.tsx"); [|apply tc_once];
      unfold imports_rel; apply (bool_decide_unpack _); vm_compute; exact I. }
  destruct (dependencies_never_contain_self cycle_graph "/w/app/a.tsx" Hnode eq_refl)
    as (deps & Hlookup & Hself & _).
  exists deps. split; [exact Hlookup | exact Hself].
Defined.

(** C7.  A file [a.tsx] whose import statements carry, in document order,
    the specifiers "./b", "lodash" and "next/router", with [b.tsx] next to
    it (and no [b.ts]): [extract_imports] returns the absolute path of
    [b.tsx] followed by "lodash", and nothing for "next/router". *)
Theorem scan_local_external_ignored `{W : World} (file_path file_bytes : string) :
  read_bytes file_path = Some file_bytes ->
  omap (import_specifier file_bytes) (preorder (parser_ts_parse file_bytes))
    = [Ok "./b"; Ok "lodash"; Ok "next/router"] ->
  isfile (Path.join (Path.dirname file_path) "./b.ts") = false ->
  isfile (Path.join (Path.dirname file_path) "./b.tsx") = true ->
  extract_imports file_path
  = Ok (mkInfo file_path
          [abspath (Path.join (Path.dirname file_path) "./b.tsx"); "lodash"]).
Proof.
  intros Hread Hspecs Hts Htsx.
  rewrite (extract_imports_specifiers _ _ Hread), Hspecs.
  set (base_dir := Path.dirname file_path) in *.
  assert (resolve_import_path base_dir "./b"
          = Ok (Some (abspath (Path.join base_dir "./b.tsx")))) as Hres.
  { rewrite resolve_import_path_find, apply_alias_plain by reflexivity.
    rewrite bind_Ok. unfold candidates.
    change ("./b" ++ ".ts") with "./b.ts". change ("./b" ++ ".tsx") with "./b.tsx".
    cbn [List.find]. by rewrite Hts, Htsx. }
  assert (record_import base_dir [] "./b"
          = Ok [abspath (Path.join base_dir "./b.tsx")]) as Hb.
  { unfold record_import.
    change (Str.startswith "next" "./b") with false.
    change (local_looking "./b") with true. cbv iota.
    rewrite Hres, bind_Ok.
    destruct (String.eqb_spec (abspath (Path.join base_dir "./b.tsx")) "") as [He|_];
      [|done].
    by apply abspath_in_nonempty in He. }
  rewrite !foldM_cons, !bind_Ok, Hb, !bind_Ok. reflexivity.
Qed.

Lemma scan_local_external_ignored_witness :
  @read_bytes app_world "/w/app/a.tsx" = Some a_src
  /\ omap (import_specifier a_src) (preorder (@parser_ts_parse app_world a_src))
     = [Ok "./b"; Ok "lodash"; Ok "next/router"]
  /\ @isfile app_world (Path.join (Path.dirname "/w/app/a.tsx") "./b.ts") = false
  /\ @isfile app_world (Path.join (Path.dirname "/w/app/a.tsx") "./b.tsx") = true
  /\ @extract_imports app_world "/w/app/a.tsx"
     = Ok (mkInfo "/w/app/a.tsx" ["/w/app/b.tsx"; "lodash"]).
Proof.
  split; [reflexivity|]. split; [reflexivity|].
  split; [reflexivity|]. split; [reflexivity|].
  exact (@scan_local_external_ignored app_world "/w/app/a.tsx" a_src
           eq_refl eq_refl eq_refl eq_refl).
Defined.

(** C8 (the code departs from the specification).  A local-looking specifier that
    matches no file should be recorded as written, whatever else happens.
    For an ["@/"] specifier the lookup of [baseUrl] comes first, and its
    handler lets through what a [tsconfig.json] of another shape raises: with
    [{"compilerOptions": {"baseUrl": 1}}] the path join raises [TypeError],
    with [[]] the [get] raises [AttributeError], and the scan of [page.tsx],
    which imports "@/x", ends with the exception. *)
Theorem alias_lookup_exception_escapes :
  local_looking "@/x" = true
  /\ Str.startswith "next" "@/x" = false
  /\ Forall (fun c => @isfile number_world c = false) (@candidates "/p" "x")
  /\ @get_tsconfig_base_url number_world "/p" = Ok (JInt 1)
  /\ @resolve_import_path number_world "/p" "@/x" = Raise TypeError
  /\ @extract_imports number_world "/p/page.tsx" = Raise TypeError
  /\ Forall (fun c => @isfile array_world c = false) (@candidates "/p" "x")
  /\ @get_tsconfig_base_url array_world "/p" = Raise AttributeError
  /\ @resolve_import_path array_world "/p" "@/x" = Raise AttributeError
  /\ @extract_imports array_world "/p/page.tsx" = Raise AttributeError.
Proof.
  split; [reflexivity|]. split; [reflexivity|].
  split; [repeat constructor|]. split; [by_compute|].
  split; [by_compute|]. split; [by_compute|].
  split; [repeat constructor|]. split; [by_compute|].
  split; by_compute.
Qed.

(** C9, as the code has it.  When the [tsconfig.json] of a directory on the
    upward walk does not parse ([json.load] raises [JSONDecodeError]), the
    handler passes and the walk goes on as it does from a directory that has
    no [tsconfig.json]: the lookup returns what the walk from the parent
    directory returns, and [None] when the directory is its own parent or
    when no directory further up has a [tsconfig.json] that parses. *)
Theorem malformed_config_is_skipped `{W : World} (start_dir : string) :
  get_tsconfig_base_url start_dir = walk_up (abspath start_dir)
  /\ (forall current_dir,
        isfile (Path.join current_dir "tsconfig.json") = false
        \/ (isfile (Path.join current_dir "tsconfig.json") = true
            /\ json_load (Path.join current_dir "tsconfig.json") = Raise JSONDecodeError) ->
        walk_up current_dir
        = if String.eqb (Path.dirname current_dir) current_dir then Ok JNull
          else walk_up (Path.dirname current_dir))
  /\ (forall current_dir,
        (forall k, no_usable_config (Nat.iter k Path.dirname current_dir)) ->
        walk_up current_dir = Ok JNull).
Proof.
  split; [reflexivity|]. split.
  - apply walk_up_skip.
  - apply walk_up_nothing_usable.
Qed.

Lemma malformed_config_is_skipped_witness :
  (@isfile nested_world (Path.join "/p/a" "tsconfig.json") = false
   \/ (@isfile nested_world (Path.join "/p/a" "tsconfig.json") = true
       /\ @json_load nested_world (Path.join "/p/a" "tsconfig.json")
          = Raise JSONDecodeError))
  /\ @walk_up nested_world "/p/a" = @walk_up nested_world "/p".
Proof.
  assert (@isfile nested_world (Path.join "/p/a" "tsconfig.json") = false
          \/ (@isfile nested_world (Path.join "/p/a" "tsconfig.json") = true
              /\ @json_load nested_world (Path.join "/p/a" "tsconfig.json")
                 = Raise JSONDecodeError)) as H
    by (right; split; reflexivity).
  split; [exact H|].
  exact (proj1 (proj2 (@malformed_config_is_skipped nested_world "/p/a")) "/p/a" H).
Defined.

(** C9 fails as stated: below a project whose [tsconfig.json] parses, a
    directory with a [tsconfig.json] that does not parse gets the [baseUrl]
    of the project, not the empty result. *)
Lemma malformed_config_falls_back_to_ancestor :
  @find_tsconfig_json nested_world "/p/a" = Some "/p/a/tsconfig.json"
  /\ @json_load nested_world "/p/a/tsconfig.json" = Raise JSONDecodeError
  /\ @get_tsconfig_base_url nested_world "/p/a" = Ok (JStr "src")
  /\ @get_tsconfig_base_url nested_world "/p/a" <> Ok JNull.
Proof. split; [|split; [|split]]; by_compute. Qed.

(** C10.  A specifier that starts with "next" is dropped before it is
    classified, a package such as "nextui" like "next/router": recording it
    leaves the list as it is, and no entry of the imports list that
    [extract_imports] returns starts with "next". *)
Theorem next_prefix_is_dropped `{W : World} :
  (forall base_dir imports import_path,
     Str.startswith "next" import_path = true ->
     record_import base_dir imports import_path = Ok imports)
  /\ (Path.isabs getcwd = true ->
      forall file_path fi,
        extract_imports file_path = Ok fi ->
        Forall (fun t => Str.startswith "next" t = false) (imports fi)).
Proof.
  split.
  - intros base_dir imports import_path Hnext. unfold record_import. by rewrite Hnext.
  - intros Hcwd file_path fi (_ & file_bytes & _ & Hall)%extract_imports_entries.
    eapply Forall_impl; [exact Hall|]. simpl.
    intros t [(c & _ & ->)|[_ ?]]; [|done].
    by apply isabs_not_next, normalized_isabs, abspath_normalized.
Qed.

Lemma next_prefix_is_dropped_witness :
  Str.startswith "next" "nextui" = true
  /\ @record_import app_world "/w/app" ["/w/app/self.tsx"] "nextui"
     = Ok ["/w/app/self.tsx"]
  /\ Path.isabs (@getcwd app_world) = true
  /\ @extract_imports app_world "/w/app/self.tsx"
     = Ok (mkInfo "/w/app/self.tsx" ["/w/app/self.tsx"])
  /\ Forall (fun t => Str.startswith "next" t = false) ["/w/app/self.tsx"].
Proof.
  split; [reflexivity|].
  split; [exact (proj1 (@next_prefix_is_dropped app_world) _ _ "nextui" eq_refl)|].
  split; [reflexivity|]. split; [reflexivity|].
  exact (proj2 (@next_prefix_is_dropped app_world) eq_refl "/w/app/self.tsx"
           (mkInfo "/w/app/self.tsx" ["/w/app/self.tsx"]) eq_refl).
Defined.

End Specification.

(** * Further properties of the code *)

(** ** Traversal and graph *)

Lemma preorder_length (n : Node) : length (preorder n) = node_count n.
Proof.
  induction n as [ty a b cs IH] using Node_ind'. simpl. f_equal.
  induction IH as [|c cs Hc _ IHcs]; simpl; [done|].
  by rewrite List.length_app, Hc, IHcs.
Qed.

(** X1.  The cursor loop of [traverse_tree] reaches its [break] within twice
    as many iterations as the tree has nodes, and what it yields is the
    depth-first pre-order: the root first, every node once. *)
Theorem traverse_tree_is_preorder (root : Node) :
  traverse_loop (2 * node_count root) (walk root) false = Some (preorder root)
  /\ traverse_tree root = root :: concat (map preorder (children root))
  /\ length (traverse_tree root) = node_count root.
Proof.
  split; [apply traverse_loop_preorder|].
  rewrite traverse_tree_preorder. split; [by destruct root|].
  apply preorder_length.
Qed.

Lemma graph_eq (g1 g2 : GraphStore) :
  nodes g1 = nodes g2 -> rels g1 = rels g2 -> g1 = g2.
Proof. destruct g1, g2. simpl. by intros -> ->. Qed.

(** X2.  Every relationship of the store [create_file_dependency_graph]
    leaves joins two nodes of the store. *)
Theorem relationships_join_nodes (graph : GraphStore) (records : list ImportInfo)
    (a b : string) :
  (a, b) ∈ rels (create_file_dependency_graph graph records) ->
  a ∈ nodes (create_file_dependency_graph graph records)
  /\ b ∈ nodes (create_file_dependency_graph graph records).
Proof.
  intros (fi & Hfi & <- & Hb & Hne)%create_rels.
  split; apply create_nodes; exists fi; (split; [done|]); [by left | by right].
Qed.

Lemma relationships_join_nodes_witness :
  ("/w/app/a.tsx", "react") ∈ rels Sample.cycle_graph
  /\ "/w/app/a.tsx" ∈ nodes Sample.cycle_graph
  /\ "react" ∈ nodes Sample.cycle_graph.
Proof.
  assert (("/w/app/a.tsx", "react") ∈ rels Sample.cycle_graph) as H
    by (apply (bool_decide_unpack _); vm_compute; exact I).
  split; [exact H|].
  exact (relationships_join_nodes _ _ _ _ H).
Defined.

(** X3.  The store [create_file_dependency_graph] leaves depends on the set
    of records only: not on what the store held before, not on the order of
    the records, not on how often one occurs.  So building twice gives what
    building once gives. *)
Theorem graph_depends_on_record_set (g1 g2 : GraphStore) (l1 l2 : list ImportInfo) :
  (forall fi, fi ∈ l1 <-> fi ∈ l2) ->
  create_file_dependency_graph g1 l1 = create_file_dependency_graph g2 l2.
Proof.
  intros Hsame. apply graph_eq; apply set_eq.
  - intros x. rewrite !create_nodes. by setoid_rewrite Hsame.
  - intros [a b]. rewrite !create_rels. by setoid_rewrite Hsame.
Qed.

Lemma graph_depends_on_record_set_witness :
  (forall fi,
     fi ∈ [mkInfo "/w/app/a.tsx" ["/w/app/b.tsx"; "react"];
            mkInfo "/w/app/b.tsx" ["/w/app/a.tsx"]]
     <-> fi ∈ [mkInfo "/w/app/b.tsx" ["/w/app/a.tsx"];
                mkInfo "/w/app/a.tsx" ["/w/app/b.tsx"; "react"];
                mkInfo "/w/app/b.tsx" ["/w/app/a.tsx"]])
  /\ create_file_dependency_graph (mkGraph ∅ ∅)
       [mkInfo "/w/app/a.tsx" ["/w/app/b.tsx"; "react"];
        mkInfo "/w/app/b.tsx" ["/w/app/a.tsx"]]
     = create_file_dependency_graph Sample.cycle_graph
         [mkInfo "/w/app/b.tsx" ["/w/app/a.tsx"];
          mkInfo "/w/app/a.tsx" ["/w/app/b.tsx"; "react"];
          mkInfo "/w/app/b.tsx" ["/w/app/a.tsx"]].
Proof.
  assert (forall fi,
     fi ∈ [mkInfo "/w/app/a.tsx" ["/w/app/b.tsx"; "react"];
            mkInfo "/w/app/b.tsx" ["/w/app/a.tsx"]]
     <-> fi ∈ [mkInfo "/w/app/b.tsx" ["/w/app/a.tsx"];
                mkInfo "/w/app/a.tsx" ["/w/app/b.tsx"; "react"];
                mkInfo "/w/app/b.tsx" ["/w/app/a.tsx"]]) as H.
  { intros fi. rewrite !elem_of_cons, !elem_of_nil. tauto. }
  split; [exact H|].
  exact (graph_depends_on_record_set _ _ _ _ H).
Defined.

(** ** The transitive query, composed *)

Lemma dependency_list_elem_of (graph : GraphStore) (f : string) (deps : list string) :
  get_app_folder_dependencies graph !! f = Some deps ->
  (f ∈ nodes graph /\ Str.contains "/app/" f = true)
  /\ forall d, d ∈ deps <-> d <> f /\ tc (imports_rel (rels graph)) f d.
Proof.
  rewrite get_app_folder_dependencies_lookup.
  case_bool_decide as Hf; [|done]. intros [= <-]. split; [done|].
  intros d. rewrite without_self_elem_of
    by (unfold dependencies_of; apply NoDup_remove_dups).
  rewrite dependencies_of_elem_of. tauto.
Qed.

Lemma dependency_map_keys_aux (graph : GraphStore) (f : string) :
  is_Some (get_app_folder_dependencies graph !! f)
  <-> f ∈ nodes graph /\ Str.contains "/app/" f = true.
Proof.
  rewrite get_app_folder_dependencies_lookup. case_bool_decide as Hf.
  - split; [done | by eexists].
  - split; [by intros [? [=]] | done].
Qed.

(** X4.  The keys of the dictionary [get_app_folder_dependencies] returns
    are the files of the store whose path contains "/app/", no other; a file
    outside can occur in the lists only. *)
Theorem dependency_map_keys (graph : GraphStore) (f : string) :
  is_Some (get_app_folder_dependencies graph !! f)
  <-> f ∈ nodes graph /\ Str.contains "/app/" f = true.
Proof. apply dependency_map_keys_aux. Qed.

(** X5.  The dependency lists are closed under the imports of their
    members: what a listed file [b] lists is listed for [a] too, [a] itself
    apart. *)
Theorem dependency_lists_are_transitive (graph : GraphStore) (a b d : string)
    (deps_a deps_b : list string) :
  get_app_folder_dependencies graph !! a = Some deps_a ->
  get_app_folder_dependencies graph !! b = Some deps_b ->
  b ∈ deps_a -> d ∈ deps_b ->
  d = a \/ d ∈ deps_a.
Proof.
  intros [_ Ha]%dependency_list_elem_of [_ Hb]%dependency_list_elem_of.
  intros [_ Hab]%Ha [_ Hbd]%Hb.
  destruct (decide (d = a)) as [->|Hne]; [by left|]. right.
  apply Ha. split; [done|]. by eapply tc_transitive.
Qed.

(** X6.  A file without outgoing IMPORTS relationship gets the empty list. *)
Theorem leaf_has_no_dependencies (graph : GraphStore) (f : string) :
  f ∈ nodes graph ->
  Str.contains "/app/" f = true ->
  (forall b, (f, b) ∉ rels graph) ->
  get_app_folder_dependencies graph !! f = Some [].
Proof.
  intros Hnode Happ Hleaf.
  destruct (proj2 (dependency_map_keys_aux graph f) (conj Hnode Happ)) as [deps Hdeps].
  rewrite Hdeps. f_equal.
  apply dependency_list_elem_of in Hdeps as [_ Hdeps].
  destruct deps as [|d deps]; [done|].
  destruct (proj1 (Hdeps d) (list_elem_of_here _ _)) as [_ Htc].
  inversion Htc as [? ? H|? y ? H]; by apply Hleaf in H.
Qed.

(** X7.  The builder and the query composed: for a file under "/app/" that
    was scanned, the list the query returns holds exactly the strings that
    the non-empty entries of the records lead to in one or more steps, the
    file itself apart. *)
Theorem dependencies_of_scanned_file (graph : GraphStore)
    (records : list ImportInfo) (fi : ImportInfo) :
  fi ∈ records ->
  Str.contains "/app/" (file fi) = true ->
  exists deps,
    get_app_folder_dependencies (create_file_dependency_graph graph records)
      !! file fi = Some deps
    /\ (forall d, d ∈ deps
          <-> d <> file fi
              /\ tc (fun a b => exists fj, fj ∈ records /\ file fj = a
                                  /\ b ∈ imports fj /\ b <> "")
                    (file fi) d)
    /\ (forall t, t ∈ imports fi -> t <> "" -> t <> file fi -> t ∈ deps).
Proof.
  intros Hfi Happ.
  set (g := create_file_dependency_graph graph records).
  assert (file fi ∈ nodes g) as Hnode
    by (apply create_nodes; exists fi; split; [done | by left]).
  destruct (proj2 (dependency_map_keys_aux g (file fi)) (conj Hnode Happ))
    as [deps Hdeps].
  exists deps. split; [done|].
  apply dependency_list_elem_of in Hdeps as [_ Hdeps].
  assert (forall x y, tc (imports_rel (rels g)) x y
          <-> tc (fun a b => exists fj, fj ∈ records /\ file fj = a
                               /\ b ∈ imports fj /\ b <> "") x y) as Htc.
  { intros x y. split; apply tc_mono; intros a b; unfold imports_rel, g;
      apply create_rels. }
  split.
  - intros d. by rewrite Hdeps, Htc.
  - intros t Ht Hne Hself. apply Hdeps. split; [done|].
    apply tc_once. unfold imports_rel. apply create_rels. eauto.
Qed.

(** ** What a scan returns *)

Section ScanProperties.
Context {W : World}.

(** X8.  What [extract_imports] returns, in full: it succeeds exactly when
    the file can be read, every specifier decodes and every resolution
    returns; the record then has the path as passed and, for the specifiers
    in document order that do not start with "next", one entry each: the
    resolved path, or the specifier as written. *)
Theorem extract_imports_in_full (file_path : string) (fi : ImportInfo) :
  extract_imports file_path = Ok fi
  <-> file fi = file_path
      /\ exists file_bytes specs,
           read_bytes file_path = Some file_bytes
           /\ omap (import_specifier file_bytes)
                   (preorder (parser_ts_parse file_bytes)) = map Ok specs
           /\ Forall2 (entry_of (Path.dirname file_path))
                      (filter (fun s => Str.startswith "next" s = false) specs)
                      (imports fi).
Proof.
  destruct (read_bytes file_path) as [file_bytes|] eqn:Hread.
  2:{ unfold extract_imports, parse_file, read_file_bytes. rewrite Hread.
      split; [done|]. by intros (_ & ? & ? & [=] & _). }
  rewrite (extract_imports_specifiers _ _ Hread). split.
  - destruct (foldM _ _ _) as [imports|e] eqn:Hfold;
      rewrite ?bind_Ok, ?bind_Raise; [|done].
    intros [= <-]. split; [done|].
    apply fold_entries in Hfold as (specs & news & Hspecs & -> & Hall).
    exists file_bytes, specs. done.
  - intros (Hfile & b & specs & [= <-] & Hspecs & Hall).
    rewrite (proj2 (fold_entries _ _ [] (imports fi))) by eauto.
    rewrite bind_Ok. destruct fi; simpl in *; by subst.
Qed.

(** X9.  Only nodes of type [import_statement] are looked at: a file whose
    tree has none (re-exports, [require] calls, dynamic imports) gets the
    empty list. *)
Theorem no_import_statement_no_entries (file_path file_bytes : string) :
  read_bytes file_path = Some file_bytes ->
  Forall (fun n => type n <> "import_statement")
         (preorder (parser_ts_parse file_bytes)) ->
  extract_imports file_path = Ok (mkInfo file_path []).
Proof.
  intros Hread Hall. rewrite (extract_imports_specifiers _ _ Hread).
  assert (omap (import_specifier file_bytes) (preorder (parser_ts_parse file_bytes))
          = []) as ->; [|done].
  induction Hall as [|n l Hn _ IH]; [done|].
  cbn [omap list_omap]. unfold import_specifier at 1.
  apply String.eqb_neq in Hn. by rewrite Hn.
Qed.

Lemma scan_files_acc (l : list string) (acc res : list ImportInfo) :
  foldM (fun dependencies fpath =>
           info ← extract_imports fpath; mret (dependencies ++ [info])%list)
        l acc = Ok res
  <-> exists recs, res = (acc ++ recs)%list
        /\ Forall2 (fun fpath info => extract_imports fpath = Ok info) l recs.
Proof.
  revert acc res. induction l as [|f l IH]; intros acc res.
  - simpl. split.
    + intros [= <-]. exists []. by rewrite app_nil_r.
    + intros (recs & -> & ->%Forall2_nil_inv_l). by rewrite app_nil_r.
  - rewrite foldM_cons. split.
    + destruct (extract_imports f) as [info|e] eqn:Hf;
        rewrite ?bind_Ok, ?bind_Raise; [|done].
      intros (recs & -> & Hall)%IH. exists (info :: recs).
      split; [by rewrite <- app_assoc | by constructor].
    + intros (recs & -> & (info & recs' & Hf & Hall & ->)%Forall2_cons_inv_l).
      rewrite Hf, bind_Ok. apply IH. exists recs'.
      split; [by rewrite <- app_assoc | done].
Qed.

(** X10.  The scan loop of [main.py] succeeds exactly when every file of the
    batch scans, and then holds one record for each file, in the order of
    the batch, under the path as collected. *)
Theorem scan_files_in_full (ts_files : list string) (dependencies : list ImportInfo) :
  (scan_files ts_files = Ok dependencies
   <-> Forall2 (fun fpath info => extract_imports fpath = Ok info)
               ts_files dependencies)
  /\ (scan_files ts_files = Ok dependencies -> map file dependencies = ts_files).
Proof.
  assert (scan_files ts_files = Ok dependencies
          <-> Forall2 (fun fpath info => extract_imports fpath = Ok info)
                      ts_files dependencies) as Hiff.
  { unfold scan_files. rewrite scan_files_acc. split.
    - by intros (recs & -> & ?).
    - intros H. by exists dependencies. }
  split; [done|]. intros H%Hiff. clear Hiff.
  induction H as [|f info l recs Hf _ IH]; [done|]. simpl. f_equal; [|done].
  by apply extract_imports_entries in Hf as [? _].
Qed.

End ScanProperties.

(** ** What the resolver returns *)

(** A resolved path is longer than the path the specifier names. *)

Lemma normpath_rendered (path : string) :
  path <> "" ->
  Path.normpath path
  = rendered (initial_slashes path)
      (fold_left (Path.normpath_step (initial_slashes path)) (Str.split path) []).
Proof.
  intros Hne%String.eqb_neq. unfold Path.normpath, rendered, initial_slashes.
  by rewrite Hne.
Qed.

Lemma startswith_slashes_head (c : ascii) (q e : string) :
  Str.all_slashes (String c q) = true -> Str.startswith "/" e = false ->
  Str.startswith (String c q) e = false.
Proof.
  intros Hq He. destruct e as [|d e]; [done|].
  simpl in Hq. apply andb_prop in Hq as [->%Ascii.eqb_eq _].
  simpl in He |- *. rewrite andb_true_r in He. fold Str.slash in He.
  by rewrite He.
Qed.

Lemma startswith_slashes_app (q x e : string) :
  Str.all_slashes q = true -> Str.startswith "/" e = false -> x <> "" ->
  Str.startswith q (x ++ e) = Str.startswith q x.
Proof.
  intros Hq He. revert x Hq.
  induction q as [|c q IH]; intros x Hq Hx; [done|].
  destruct x as [|a x]; [done|]. rewrite app_cons_str.
  cbn [Str.startswith]. f_equal.
  assert (Str.all_slashes q = true) as Hq'
    by (simpl in Hq; by apply andb_prop in Hq as [_ ?]).
  destruct x as [|b x]; [|by apply IH].
  rewrite app_nil_l_str. destruct q as [|c' q]; [done|].
  rewrite startswith_slashes_head by done. done.
Qed.

Lemma startswith_slashes_slash (q x : string) :
  Str.all_slashes q = true -> x <> "" -> Str.endswith_slash x = false ->
  Str.startswith q (x ++ "/") = Str.startswith q x.
Proof.
  revert x. induction q as [|c q IH]; intros x Hq Hx Hend; [done|].
  destruct x as [|a x]; [done|]. rewrite app_cons_str. simpl in Hq |- *.
  apply andb_prop in Hq as [->%Ascii.eqb_eq Hq].
  destruct x as [|b x].
  - simpl in Hend. rewrite Ascii.eqb_sym, Hend. done.
  - f_equal. by apply IH.
Qed.

Lemma initial_slashes_app (x e : string) :
  Str.startswith "/" e = false -> x <> "" ->
  initial_slashes (x ++ e) = initial_slashes x.
Proof.
  intros He Hx. unfold initial_slashes.
  by rewrite !startswith_slashes_app.
Qed.

Lemma initial_slashes_slash (x : string) :
  x <> "" -> Str.endswith_slash x = false ->
  initial_slashes (x ++ "/") = initial_slashes x.
Proof.
  intros Hx Hend. unfold initial_slashes.
  by rewrite !startswith_slashes_slash.
Qed.

Lemma no_slash_head (e : string) :
  no_slash e -> Str.startswith "/" e = false.
Proof.
  destruct e as [|a e]; [done|]. intros [Ha _]%no_slash_cons. simpl.
  rewrite andb_true_r, Ascii.eqb_sym. by apply Ascii.eqb_neq.
Qed.

Lemma length_join_snoc (l : list string) (x : string) :
  String.length (Str.join l) + String.length x <= String.length (Str.join (l ++ [x]))
  /\ String.length (Str.join (l ++ [x]))
     <= String.length (Str.join l) + String.length x + 1.
Proof.
  destruct (decide (l = [])) as [->|Hne]; [simpl; lia|].
  rewrite join_snoc_nonempty by done. rewrite !length_app. simpl. lia.
Qed.

Lemma length_join_same_init (l : list string) (x y : string) :
  String.length (Str.join (l ++ [x])) + String.length y
  = String.length (Str.join (l ++ [x ++ y])).
Proof.
  destruct (decide (l = [])) as [->|Hne]; [simpl; by rewrite length_app|].
  rewrite !join_snoc_nonempty by done. rewrite !length_app. simpl. lia.
Qed.

Lemma length_join_removelast (l : list string) :
  String.length (Str.join (removelast l)) <= String.length (Str.join l).
Proof.
  destruct (decide (l = [])) as [->|Hne]; [done|].
  destruct (exists_last Hne) as (init & c & ->). rewrite removelast_last.
  pose proof (length_join_snoc init c). lia.
Qed.

Lemma length_rendered (k : nat) :
  exists n, forall l,
    n + String.length (Str.join l) <= String.length (rendered k l)
    /\ String.length (rendered k l) <= n + String.length (Str.join l) + 1.
Proof.
  assert (forall lead l,
            String.length lead + String.length (Str.join l)
            <= String.length (if String.eqb (lead ++ Str.join l) "" then "."
                              else lead ++ Str.join l)
            /\ String.length (if String.eqb (lead ++ Str.join l) "" then "."
                              else lead ++ Str.join l)
               <= String.length lead + String.length (Str.join l) + 1) as H.
  { intros lead l. destruct (String.eqb_spec (lead ++ Str.join l) "") as [E|_].
    - apply (f_equal String.length) in E. rewrite length_app in E. simpl in *. lia.
    - rewrite length_app. lia. }
  unfold rendered. destruct k as [|[|k]].
  - exists 0. intros l. apply (H "" l).
  - exists 1. intros l. apply (H "/" l).
  - exists 2. intros l. apply (H "//" l).
Qed.

(** One more step of the loop of [normpath], on [lc] and on [lc] with a
    suffix that makes it a plain component. *)
Lemma normpath_step_longer (k : nat) (acc : list string) (lc e : string) :
  3 <= String.length e ->
  String.length (Str.join (Path.normpath_step k acc lc)) + 3
  <= String.length (Str.join (acc ++ [lc ++ e])).
Proof.
  intros Hlen. unfold Path.normpath_step.
  pose proof (length_join_snoc acc (lc ++ e)) as [Hlo _].
  rewrite length_app in Hlo.
  destruct (_ || _).
  - lia.
  - destruct (_ || _).
    + rewrite <- length_join_same_init. lia.
    + pose proof (length_join_removelast acc). lia.
Qed.

Lemma normpath_longer (x e : string) :
  no_slash e -> 3 <= String.length e ->
  String.length (Path.normpath x) < String.length (Path.normpath (x ++ e)).
Proof.
  intros He Hlen. destruct (String.eqb_spec x "") as [->|Hx].
  { destruct (normpath_keeps_suffix "" e He Hlen) as [w ->].
    rewrite length_app. simpl. lia. }
  assert (x ++ e <> "") as Hxe by (by destruct x).
  rewrite (normpath_rendered x Hx), (normpath_rendered (x ++ e) Hxe).
  rewrite (initial_slashes_app x e (no_slash_head e He) Hx).
  set (k := initial_slashes x).
  destruct (split_app_last x e He) as (init & lc & -> & ->).
  rewrite !fold_left_app. cbn [fold_left].
  set (acc := fold_left (Path.normpath_step k) init []).
  rewrite (normpath_step_plain k acc (lc ++ e))
    by (apply length_ge3_plain; rewrite length_app; lia).
  destruct (length_rendered k) as [n Hn].
  pose proof (Hn (Path.normpath_step k acc lc)) as [_ Hup].
  pose proof (Hn (acc ++ [String.append lc e])%list) as [Hlo _].
  pose proof (normpath_step_longer k acc lc e Hlen). lia.
Qed.

Lemma normpath_trailing_slash (x : string) :
  x <> "" -> Str.endswith_slash x = false ->
  Path.normpath (x ++ "/") = Path.normpath x.
Proof.
  intros Hx Hend.
  assert (x ++ "/" <> "") as Hxs by (by destruct x).
  rewrite (normpath_rendered x Hx), (normpath_rendered (x ++ "/") Hxs).
  rewrite (initial_slashes_slash x Hx Hend).
  change (x ++ "/") with (x ++ String Str.slash "").
  rewrite split_app_slash, fold_left_app. done.
Qed.

Lemma join_app_suffix (a y e : string) :
  Str.startswith "/" e = false ->
  Path.join a (y ++ e) = Path.join a y ++ e.
Proof.
  intros He. unfold Path.join.
  assert (Str.startswith "/" (y ++ e) = Str.startswith "/" y) as ->
    by (destruct y; [by rewrite app_nil_l_str | done]).
  destruct (Str.startswith "/" y); [done|].
  destruct (_ || _); by rewrite !app_assoc_str.
Qed.

Lemma endswith_slash_app (a y : string) :
  y <> "" -> Str.endswith_slash (a ++ y) = Str.endswith_slash y.
Proof.
  intros Hy. induction a as [|c a IH]; [done|]. rewrite app_cons_str.
  simpl. rewrite IH. destruct (a ++ y) eqn:E; [|done].
  destruct a; [by rewrite app_nil_l_str in E | done].
Qed.

Lemma abspath_in_longer (cwd y e : string) :
  no_slash e -> 3 <= String.length e ->
  String.length (Path.abspath_in cwd y) < String.length (Path.abspath_in cwd (y ++ e)).
Proof.
  intros He Hlen. pose proof (no_slash_head e He) as Hhead.
  unfold Path.abspath_in, Path.isabs.
  assert (Str.startswith "/" (y ++ e) = Str.startswith "/" y) as ->
    by (destruct y; [by rewrite app_nil_l_str | done]).
  destruct (Str.startswith "/" y); [by apply normpath_longer|].
  rewrite join_app_suffix by done. by apply normpath_longer.
Qed.

Lemma abspath_in_trailing_slash (cwd y : string) :
  y <> "" -> Str.endswith_slash y = false ->
  Path.abspath_in cwd (y ++ "/") = Path.abspath_in cwd y.
Proof.
  intros Hy Hend. unfold Path.abspath_in, Path.isabs.
  assert (Str.startswith "/" (y ++ "/") = Str.startswith "/" y) as Hsame
    by (by destruct y).
  rewrite Hsame. destruct (Str.startswith "/" y) eqn:Habs;
    [by apply normpath_trailing_slash|].
  assert (Path.join cwd (y ++ "/") = Path.join cwd y ++ "/") as ->.
  { unfold Path.join. rewrite Hsame, Habs.
    destruct (_ || _); by rewrite !app_assoc_str. }
  assert (exists pre, Path.join cwd y = pre ++ y) as [pre ->].
  { unfold Path.join. rewrite Habs. destruct (_ || _).
    - by exists cwd.
    - exists (cwd ++ "/"). by rewrite app_assoc_str. }
  apply normpath_trailing_slash.
  - by destruct pre, y.
  - by rewrite endswith_slash_app.
Qed.

(** Joining a file name to a directory makes the absolutized path longer. *)
Lemma abspath_in_join_longer (cwd y e : string) :
  no_slash e -> 3 <= String.length e ->
  String.length (Path.abspath_in cwd y)
  < String.length (Path.abspath_in cwd (Path.join y e)).
Proof.
  intros He Hlen. unfold Path.join. rewrite (no_slash_head e He).
  destruct (String.eqb_spec y "") as [->|Hy]; simpl.
  { by apply (abspath_in_longer cwd ""). }
  destruct (Str.endswith_slash y) eqn:Hend.
  - by apply abspath_in_longer.
  - rewrite <- (abspath_in_trailing_slash cwd y Hy Hend).
    replace (y ++ "/" ++ e) with ((y ++ "/") ++ e) by (by rewrite app_assoc_str).
    by apply abspath_in_longer.
Qed.

Section ResolverProperties.
Context {W : World}.

Lemma candidates_longer (base_dir q c : string) :
  In c (candidates base_dir q) ->
  String.length (abspath (Path.join base_dir q)) < String.length (abspath c).
Proof.
  unfold candidates, abspath. intros Hc. simpl in Hc.
  repeat (destruct Hc as [<-|Hc];
          [first [ rewrite join_app_suffix by done;
                   apply abspath_in_longer; (done || simpl; lia)
                 | apply abspath_in_join_longer; (done || simpl; lia) ]|]).
  done.
Qed.

(** X11.  Every path [resolve_import_path] returns ends in one of the four
    extensions it tries, and it is never the path the specifier itself
    names (the specifier, after the rewriting of "@/", joined to the
    directory and absolutized): an extension or the name of an index file
    has been added to it. *)
Theorem resolved_path_has_tried_extension (base_dir import_path p : string) :
  resolve_import_path base_dir import_path = Ok (Some p) ->
  (exists stem ext,
     p = stem ++ ext
     /\ (ext = ".ts" \/ ext = ".tsx" \/ ext = ".js" \/ ext = ".jsx"))
  /\ (forall named,
        apply_alias base_dir import_path = Ok named ->
        p <> abspath (Path.join base_dir named))
  /\ (Str.startswith "@/" import_path = false ->
      p <> abspath (Path.join base_dir import_path)).
Proof.
  intros Hres.
  assert (forall named,
            apply_alias base_dir import_path = Ok named ->
            p <> abspath (Path.join base_dir named)) as Hnamed.
  { intros named Halias Heq. revert Hres.
    rewrite resolve_import_path_find, Halias, bind_Ok.
    destruct (List.find isfile (candidates base_dir named)) as [c|] eqn:Hfind;
      [|done].
    intros [= Hp]. apply List.find_some in Hfind as [Hc _].
    apply candidates_longer in Hc. rewrite Hp, Heq in Hc. lia. }
  split; [|split; [exact Hnamed|]].
  - destruct (resolved_path_suffix _ _ _ Hres) as (stem & ext & Hext & _ & _ & ->).
    exists stem, ext. split; [done|].
    simpl in Hext. destruct Hext as [<-|[<-|[<-|[<-|[]]]]]; tauto.
  - intros Hplain. apply Hnamed. by apply apply_alias_plain.
Qed.

(** X12.  A specifier that does not start with "@/" never makes
    [resolve_import_path] raise, and it resolves to [None] exactly when none
    of its eight candidates is a file, whether or not the path it names is
    one. *)
Theorem plain_specifier_resolution (base_dir import_path : string) :
  Str.startswith "@/" import_path = false ->
  (exists r, resolve_import_path base_dir import_path = Ok r)
  /\ (resolve_import_path base_dir import_path = Ok None
      <-> Forall (fun c => isfile c = false) (candidates base_dir import_path)).
Proof.
  intros Hplain. rewrite resolve_import_path_find, apply_alias_plain, bind_Ok by done.
  split; [by eexists|].
  destruct (List.find isfile (candidates base_dir import_path)) as [c|] eqn:Hfind.
  - apply List.find_some in Hfind as [Hin Hc]. split; [done|].
    intros Hall. rewrite Forall_forall in Hall.
    apply list_elem_of_In, Hall in Hin. congruence.
  - split; [|done]. intros _. apply Forall_forall. intros c Hin%list_elem_of_In.
    apply (List.find_none _ _ Hfind) in Hin. by destruct (isfile c).
Qed.

Lemma join_abs_r (a p : string) : Path.isabs p = true -> Path.join a p = p.
Proof. unfold Path.join, Path.isabs. by intros ->. Qed.

Lemma isabs_app (p x : string) : Path.isabs p = true -> Path.isabs (p ++ x) = true.
Proof. by intros [r ->]%startswith_slash. Qed.

Lemma candidates_of_absolute (base1 base2 q : string) :
  Path.isabs q = true -> candidates base1 q = candidates base2 q.
Proof.
  intros Hq. unfold candidates.
  by rewrite !(join_abs_r _ (q ++ _)), !(join_abs_r _ q) by (done || by apply isabs_app).
Qed.

(** X13.  With an absolute [baseUrl] an "@/" specifier resolves to the same
    result from every directory that finds this [baseUrl]. *)
Theorem absolute_base_url_resolution (base1 base2 b import_path : string) :
  get_tsconfig_base_url base1 = Ok (JStr b) ->
  get_tsconfig_base_url base2 = Ok (JStr b) ->
  Path.isabs b = true ->
  Str.startswith "@/" import_path = true ->
  resolve_import_path base1 import_path = resolve_import_path base2 import_path
  /\ resolve_import_path base1 import_path
     = Ok (abspath <$> List.find isfile
             (candidates "" (Path.join b (Str.drop 2 import_path)))).
Proof.
  intros H1 H2 Hb Halias.
  assert (forall base, get_tsconfig_base_url base = Ok (JStr b) ->
            resolve_import_path base import_path
            = Ok (abspath <$> List.find isfile
                    (candidates "" (Path.join b (Str.drop 2 import_path))))) as H.
  { intros base Hbase. rewrite resolve_import_path_find. unfold apply_alias.
    rewrite Halias, Hbase, bind_Ok.
    assert (truthy (JStr b) = true) as ->.
    { apply startswith_slash in Hb as [r ->]. done. }
    rewrite bind_Ok.
    by rewrite (candidates_of_absolute base "") by (by apply join_isabs). }
  by rewrite (H base1 H1), (H base2 H2).
Qed.

(** X14.  Where the lookup finds no [baseUrl] (none configured, or [null],
    or an empty string), an "@/" specifier is resolved as the rest of it,
    against the directory of the importer. *)
Theorem alias_without_base_url (base_dir rest : string) (v : json) :
  get_tsconfig_base_url base_dir = Ok v ->
  truthy v = false ->
  resolve_import_path base_dir ("@/" ++ rest)
  = Ok (abspath <$> List.find isfile (candidates base_dir rest)).
Proof.
  intros Hv Hfalsy. rewrite resolve_import_path_find. unfold apply_alias.
  change (Str.startswith "@/" ("@/" ++ rest)) with true. cbv iota.
  by rewrite Hv, bind_Ok, Hfalsy.
Qed.

End ResolverProperties.

(** ** The configuration locator *)

Lemma ancestor_succ (k : nat) (d : string) :
  ancestor (S k) d = ancestor k (Path.dirname d).
Proof. unfold ancestor. by rewrite Nat.iter_succ_r. Qed.

Lemma ancestor_root (k : nat) (d : string) : Path.dirname d = d -> ancestor k d = d.
Proof.
  intros Hroot. induction k as [|k IH]; [done|].
  unfold ancestor in *. simpl. by rewrite IH.
Qed.

Section Locator.
Context {W : World}.

Lemma find_walks_agree (fuel : nat) (d : string) :
  find_tsconfig_walk fuel d
  = option_map (option_map (fun dir => Path.join dir "tsconfig.json"))
      (find_dir_walk fuel d).
Proof.
  revert d. induction fuel as [|fuel IH]; intros d; simpl; [done|].
  destruct (isfile _); [done|]. destruct (String.eqb _ _); [done | apply IH].
Qed.

Lemma find_dir_walk_fuel (n m : nat) (d : string) :
  String.length d < n -> String.length d < m ->
  find_dir_walk n d = find_dir_walk m d.
Proof.
  revert m d. induction n as [|n IH]; intros [|m] d Hn Hm; try lia.
  simpl. destruct (isfile _); [done|].
  destruct (String.eqb_spec (Path.dirname d) d) as [Heq|Hne]; [done|].
  apply dirname_shorter in Hne. apply IH; lia.
Qed.

Lemma find_dir_walk_terminates (n : nat) (d : string) :
  String.length d < n -> is_Some (find_dir_walk n d).
Proof.
  revert d. induction n as [|n IH]; intros d Hn; [lia|]. simpl.
  destruct (isfile _); [done|].
  destruct (String.eqb_spec (Path.dirname d) d) as [Heq|Hne]; [done|].
  apply dirname_shorter in Hne. apply IH. lia.
Qed.

Lemma find_dir_from_unfold (d : string) :
  find_dir_from d
  = if isfile (Path.join d "tsconfig.json") then Some d
    else if String.eqb (Path.dirname d) d then None
         else find_dir_from (Path.dirname d).
Proof.
  unfold find_dir_from at 1. simpl. destruct (isfile _); [done|].
  destruct (String.eqb_spec (Path.dirname d) d) as [Heq|Hne]; [done|].
  apply dirname_shorter in Hne. unfold find_dir_from.
  by rewrite (find_dir_walk_fuel (String.length d)
                (S (String.length (Path.dirname d)))) by lia.
Qed.

Lemma find_dir_from_Some (d dir : string) :
  find_dir_from d = Some dir
  <-> exists k, dir = ancestor k d
        /\ isfile (Path.join dir "tsconfig.json") = true
        /\ forall j, j < k -> isfile (Path.join (ancestor j d) "tsconfig.json") = false.
Proof.
  split.
  - remember (String.length d) as n eqn:Hn. revert d Hn.
    induction n as [n IH] using lt_wf_ind. intros d -> Hfind.
    rewrite find_dir_from_unfold in Hfind.
    destruct (isfile (Path.join d "tsconfig.json")) eqn:Hd.
    { injection Hfind as <-. exists 0. split; [done|]. split; [done|]. lia. }
    destruct (String.eqb_spec (Path.dirname d) d) as [_|Hne]; [done|].
    apply (IH _ (dirname_shorter d Hne) _ eq_refl) in Hfind as (k & -> & Hk & Hj).
    exists (S k). rewrite ancestor_succ. split; [done|]. split; [done|].
    intros [|j] Hlt; [done|]. rewrite ancestor_succ. apply Hj. lia.
  - intros (k & -> & Hk & Hj). revert d Hk Hj.
    induction k as [|k IH]; intros d Hk Hj; rewrite find_dir_from_unfold.
    + simpl in Hk. by rewrite Hk.
    + assert (isfile (Path.join d "tsconfig.json") = false) as H0
        by (apply (Hj 0); lia).
      rewrite H0.
      destruct (String.eqb_spec (Path.dirname d) d) as [Hroot|Hne].
      { rewrite (ancestor_root _ _ Hroot) in Hk. congruence. }
      rewrite ancestor_succ in *. apply IH; [done|].
      intros j Hlt. rewrite <- ancestor_succ. apply Hj. lia.
Qed.

Lemma find_dir_from_None (d : string) :
  find_dir_from d = None
  <-> forall k, isfile (Path.join (ancestor k d) "tsconfig.json") = false.
Proof.
  split.
  - intros Hfind k. revert d Hfind.
    induction k as [|k IH]; intros d Hfind; rewrite find_dir_from_unfold in Hfind;
      destruct (isfile (Path.join d "tsconfig.json")) eqn:Hd; try done.
    rewrite ancestor_succ.
    destruct (String.eqb_spec (Path.dirname d) d) as [Hroot|Hne]; [|by apply IH].
    rewrite Hroot. apply IH. rewrite find_dir_from_unfold, Hd, Hroot.
    by rewrite String.eqb_refl.
  - remember (String.length d) as n eqn:Hn. revert d Hn.
    induction n as [n IH] using lt_wf_ind. intros d -> Hall.
    rewrite find_dir_from_unfold.
    assert (isfile (Path.join d "tsconfig.json") = false) as -> by apply (Hall 0).
    destruct (String.eqb_spec (Path.dirname d) d) as [_|Hne]; [done|].
    apply (IH _ (dirname_shorter d Hne) _ eq_refl).
    intros k. rewrite <- ancestor_succ. apply Hall.
Qed.

Lemma find_json_from_dir (d : string) :
  find_json_from d = (fun dir => Path.join dir "tsconfig.json") <$> find_dir_from d.
Proof.
  unfold find_json_from, find_dir_from. rewrite find_walks_agree.
  by destruct (find_dir_walk _ _) as [[?|]|].
Qed.

(** The walk of [get_tsconfig_base_url] stops at the directory
    [find_tsconfig_dir] finds when the file there loads. *)
Lemma walk_up_nearest (d dir : string) (v : json) :
  find_dir_from d = Some dir ->
  read_base_url (Path.join dir "tsconfig.json") = Ok v ->
  walk_up d = Ok v.
Proof.
  intros (k & -> & Hk & Hj)%find_dir_from_Some. revert d Hk Hj.
  induction k as [|k IH]; intros d Hk Hj Hv; rewrite walk_up_unfold; cbv zeta.
  - simpl in *. by rewrite Hk, Hv.
  - assert (isfile (Path.join d "tsconfig.json") = false) as H0
      by (apply (Hj 0); lia).
    rewrite H0.
    destruct (String.eqb_spec (Path.dirname d) d) as [Hroot|Hne].
    { rewrite (ancestor_root _ _ Hroot) in Hk. congruence. }
    rewrite ancestor_succ in *. apply IH; [done| |done].
    intros j Hlt. rewrite <- ancestor_succ. apply Hj. lia.
Qed.

(** X15.  [find_tsconfig_dir] returns the nearest directory, from the
    absolutized start upwards, that holds a file [tsconfig.json]; [None]
    exactly when no directory up to the root does. *)
Theorem find_tsconfig_dir_is_nearest (start_dir : string) :
  (forall dir,
     find_tsconfig_dir start_dir = Some dir
     <-> exists k,
           dir = ancestor k (abspath start_dir)
           /\ isfile (Path.join dir "tsconfig.json") = true
           /\ forall j, j < k ->
                isfile (Path.join (ancestor j (abspath start_dir)) "tsconfig.json")
                = false)
  /\ (find_tsconfig_dir start_dir = None
      <-> forall k,
            isfile (Path.join (ancestor k (abspath start_dir)) "tsconfig.json") = false).
Proof.
  split; [intros dir; apply find_dir_from_Some | apply find_dir_from_None].
Qed.

(** X16.  [find_tsconfig_json] returns the [tsconfig.json] of the directory
    [find_tsconfig_dir] returns, and [None] when that returns [None]. *)
Theorem find_tsconfig_json_of_dir (start_dir : string) :
  find_tsconfig_json start_dir
  = (fun dir => Path.join dir "tsconfig.json") <$> find_tsconfig_dir start_dir.
Proof. apply find_json_from_dir. Qed.

(** X17.  The first [tsconfig.json] on the way up that loads as an object
    with an object for [compilerOptions] decides: [get_tsconfig_base_url]
    returns its [baseUrl], [None] when it has none, and never looks further
    up; a [baseUrl] of a directory above is not inherited. *)
Theorem nearest_config_decides (start_dir dir : string) (v : json) :
  find_tsconfig_dir start_dir = Some dir ->
  read_base_url (Path.join dir "tsconfig.json") = Ok v ->
  get_tsconfig_base_url start_dir = Ok v.
Proof. apply walk_up_nearest. Qed.

Lemma get_tsconfig_base_url_no_config (start_dir : string) :
  find_tsconfig_json start_dir = None ->
  get_tsconfig_base_url start_dir = Ok JNull.
Proof.
  intros Hnone. change (find_json_from (abspath start_dir) = None) in Hnone.
  rewrite find_json_from_dir in Hnone.
  destruct (find_dir_from (abspath start_dir)) eqn:Hdir; [done|].
  apply walk_up_nothing_usable. intros k. left.
  by apply find_dir_from_None.
Qed.

(** X18.  Where [find_tsconfig_json] finds no file, [get_tsconfig_base_url]
    returns [None]. *)
Theorem no_config_no_base_url (start_dir : string) :
  find_tsconfig_json start_dir = None ->
  get_tsconfig_base_url start_dir = Ok JNull.
Proof. apply get_tsconfig_base_url_no_config. Qed.

Lemma join_tsconfig_nonempty (d : string) : Path.join d "tsconfig.json" <> "".
Proof.
  unfold Path.join. simpl. intros H. apply (f_equal String.length) in H.
  destruct (_ || _); rewrite !length_app in H; simpl in H; lia.
Qed.

(** X19.  [parse_tsconfig] on what [find_tsconfig_json] returns and
    [get_tsconfig_base_url] agree: whenever the former returns, the latter
    returns its [baseUrl]. *)
Theorem parse_tsconfig_agrees (start_dir : string) (cfg : TsConfig) :
  parse_tsconfig (find_tsconfig_json start_dir) = Ok cfg ->
  get_tsconfig_base_url start_dir = Ok (baseUrl cfg).
Proof.
  destruct (find_tsconfig_json start_dir) as [p|] eqn:Hfind.
  2:{ intros [= <-]. by apply get_tsconfig_base_url_no_config. }
  change (find_json_from (abspath start_dir) = Some p) in Hfind.
  rewrite find_json_from_dir in Hfind.
  destruct (find_dir_from (abspath start_dir)) as [dir|] eqn:Hdir; [|done].
  injection Hfind as <-.
  pose proof (proj1 (find_dir_from_Some _ _) Hdir) as (k & _ & Hfile & _).
  unfold parse_tsconfig. rewrite Hfile.
  pose proof (join_tsconfig_nonempty dir) as Hne.
  apply String.eqb_neq in Hne. rewrite Hne. simpl.
  destruct (json_load _) as [config|e] eqn:Hload; rewrite ?bind_Ok, ?bind_Raise; [|done].
  destruct (py_get config _ _) as [opts|e] eqn:Hopts; rewrite ?bind_Ok, ?bind_Raise; [|done].
  destruct (py_get opts "baseUrl" _) as [b|e] eqn:Hb; rewrite ?bind_Ok, ?bind_Raise; [|done].
  destruct (py_get opts "paths" _) as [ps|e] eqn:Hps; rewrite ?bind_Ok, ?bind_Raise; [|done].
  intros [= <-]. simpl. apply (walk_up_nearest _ dir); [done|].
  unfold read_base_url. by rewrite Hload, bind_Ok, Hopts, bind_Ok.
Qed.

(** X20.  The three upward walks end: whatever the file system, each loop
    has left after at most one iteration for each character of the
    absolutized start and one more, with the result the function returns. *)
Theorem upward_walks_end (fuel : nat) (d : string) :
  String.length d < fuel ->
  tsconfig_walk fuel d = Some (walk_up d)
  /\ find_dir_walk fuel d = Some (find_dir_from d)
  /\ find_tsconfig_walk fuel d = Some (find_json_from d).
Proof.
  intros Hfuel.
  assert (find_dir_walk fuel d = Some (find_dir_from d)) as Hdir.
  { unfold find_dir_from.
    rewrite (find_dir_walk_fuel (S (String.length d)) fuel) by lia.
    by destruct (find_dir_walk_terminates fuel d Hfuel) as [r ->]. }
  split; [|split; [done|]].
  - unfold walk_up.
    rewrite (tsconfig_walk_fuel (S (String.length d)) fuel) by lia.
    by destruct (tsconfig_walk_terminates fuel d Hfuel) as [r ->].
  - rewrite find_walks_agree, Hdir. simpl. by rewrite find_json_from_dir.
Qed.

End Locator.

(** ** The summarizer *)

Lemma universal_newlines_empty (s : string) :
  Summary.universal_newlines s = "" <-> s = "".
Proof.
  split; [|by intros ->]. destruct s as [|a r]; [done|]. simpl.
  destruct (Ascii.eqb a _); [|done]. destruct r as [|b r]; [done|].
  by destruct (Ascii.eqb b _).
Qed.

Section SummarizerProperties.
Context {W : World} {M : LanguageModel}.

Lemma code_snippets_acc (l : list string) (acc : list string) :
  foldl (fun code_snippets fp =>
           let content := Summary.read_file_content fp in
           if negb (String.eqb content "")
           then (code_snippets ++ [Summary.snippet fp content])%list
           else code_snippets)
        acc l
  = (acc ++ map (fun fp => Summary.snippet fp (Summary.read_file_content fp))
              (filter (fun fp => Summary.read_file_content fp <> "") l))%list.
Proof.
  revert acc. induction l as [|fp l IH]; intros acc; simpl.
  - by rewrite app_nil_r.
  - rewrite IH. destruct (String.eqb_spec (Summary.read_file_content fp) "") as [He|Hne].
    + by rewrite filter_cons_False by (by intros ?).
    + rewrite filter_cons_True by done. simpl. by rewrite <- app_assoc.
Qed.

(** X21.  The prompt of [generate_feature_summary] has one section for each
    path of the list that names a file which can be opened, is valid UTF-8
    and is not empty, in the order of the list; every other path (a package
    name, a specifier that did not resolve, a file that is gone) is passed
    over without an error. *)
Theorem snippets_of_readable_files (file_list : list string) :
  Summary.code_snippets file_list
  = map (fun fp => Summary.snippet fp (Summary.read_file_content fp))
        (filter (fun fp => Summary.read_file_content fp <> "") file_list)
  /\ forall fp,
       Summary.read_file_content fp <> ""
       <-> exists b, read_bytes fp = Some b /\ Str.utf8_wf b = true /\ b <> "".
Proof.
  split; [apply (code_snippets_acc file_list [])|].
  intros fp. unfold Summary.read_file_content, Str.decode_utf8.
  destruct (read_bytes fp) as [b|]; [|split; [done | by intros (? & [=] & _)]].
  destruct (Str.utf8_wf b) eqn:Hwf.
  - rewrite universal_newlines_empty. split; [intros ?; by exists b|].
    by intros (? & [= <-] & _ & ?).
  - split; [done | intros (? & [= <-] & ? & _); congruence].
Qed.

Lemma write_summaries_acc (dependencies : list ImportInfo) (st : list string * nat) :
  foldl (fun st dependency_map =>
           foldl (fun st _ => Summary.summarize st dependency_map) st
                 (Summary.items dependency_map))
        st dependencies
  = ((st.1 ++ concat (imap (fun i fi =>
         Summary.section_of (file fi)
           (Summary.generate_feature_summary (st.2 + 2 * i) (file fi :: imports fi))
         ++ Summary.section_of (file fi)
              (Summary.generate_feature_summary (st.2 + 2 * i + 1)
                 (file fi :: imports fi)))
       dependencies))%list,
     st.2 + 2 * length dependencies).
Proof.
  revert st. induction dependencies as [|fi l IH]; intros [out n].
  - cbn [foldl imap concat fst snd length]. by rewrite app_nil_r, Nat.mul_0_r, Nat.add_0_r.
  - cbn [foldl Summary.items]. rewrite IH. unfold Summary.summarize.
    cbn [fst snd length]. rewrite imap_cons. cbn [concat].
    f_equal; [|lia]. rewrite <- !app_assoc. f_equal.
    replace (n + 2 * 0) with n by lia. replace (n + 1) with (S n) by lia.
    do 2 f_equal. f_equal. apply imap_ext. intros i fj _. unfold compose.
    replace (S (S n) + 2 * i) with (n + 2 * S i) by lia. done.
Qed.

(** X22.  The summary loop of [main.py] iterates over the items of every
    record, and a record has two: for each scanned file it asks the model
    twice, with the same list of files, and writes two sections under the
    same heading, one after the other. *)
Theorem every_summary_is_written_twice (dependencies : list ImportInfo) :
  (Summary.write_summaries dependencies).2 = 2 * length dependencies
  /\ (Summary.write_summaries dependencies).1
     = concat (imap (fun i fi =>
         Summary.section_of (file fi)
           (Summary.generate_feature_summary (2 * i) (file fi :: imports fi))
         ++ Summary.section_of (file fi)
              (Summary.generate_feature_summary (2 * i + 1) (file fi :: imports fi)))
       dependencies)%list.
Proof.
  unfold Summary.write_summaries. rewrite write_summaries_acc. cbn [fst snd].
  split; [done|]. rewrite app_nil_l. f_equal.
Qed.

End SummarizerProperties.

(** ** Instances *)

Section Instances.
Import Sample More.

Ltac decide_by_compute := apply (bool_decide_unpack _); vm_compute; exact I.

Lemma dependency_lists_are_transitive_witness :
  get_app_folder_dependencies cycle_graph !! "/w/app/a.tsx"
  = Some ["/w/app/b.tsx"; "react"]
  /\ get_app_folder_dependencies cycle_graph !! "/w/app/b.tsx"
     = Some ["/w/app/a.tsx"; "react"]
  /\ ("react" = "/w/app/a.tsx" \/ "react" ∈ ["/w/app/b.tsx"; "react"]).
Proof.
  assert (get_app_folder_dependencies cycle_graph !! "/w/app/a.tsx"
          = Some ["/w/app/b.tsx"; "react"]) as Ha by (vm_compute; reflexivity).
  assert (get_app_folder_dependencies cycle_graph !! "/w/app/b.tsx"
          = Some ["/w/app/a.tsx"; "react"]) as Hb by (vm_compute; reflexivity).
  split; [exact Ha|]. split; [exact Hb|].
  apply (dependency_lists_are_transitive cycle_graph
           "/w/app/a.tsx" "/w/app/b.tsx" "react" _ _ Ha Hb); decide_by_compute.
Defined.

Lemma leaf_has_no_dependencies_witness :
  "/w/app/leaf.tsx" ∈ nodes leaf_graph
  /\ Str.contains "/app/" "/w/app/leaf.tsx" = true
  /\ (forall b, ("/w/app/leaf.tsx", b) ∉ rels leaf_graph)
  /\ get_app_folder_dependencies leaf_graph !! "/w/app/leaf.tsx" = Some [].
Proof.
  assert ("/w/app/leaf.tsx" ∈ nodes leaf_graph) as Hnode by decide_by_compute.
  assert (forall b, ("/w/app/leaf.tsx", b) ∉ rels leaf_graph) as Hleaf.
  { intros b (fi & Hfi & Hfile & _)%create_rels.
    apply list_elem_of_singleton in Hfi as ->. discriminate Hfile. }
  split; [exact Hnode|]. split; [reflexivity|]. split; [exact Hleaf|].
  exact (leaf_has_no_dependencies leaf_graph "/w/app/leaf.tsx" Hnode eq_refl Hleaf).
Defined.

Lemma dependencies_of_scanned_file_witness :
  mkInfo "/w/app/a.tsx" ["/w/app/b.tsx"; "react"]
    ∈ [mkInfo "/w/app/a.tsx" ["/w/app/b.tsx"; "react"];
        mkInfo "/w/app/b.tsx" ["/w/app/a.tsx"]]
  /\ Str.contains "/app/" "/w/app/a.tsx" = true
  /\ exists deps,
       get_app_folder_dependencies cycle_graph !! "/w/app/a.tsx" = Some deps
       /\ "react" ∈ deps.
Proof.
  assert (mkInfo "/w/app/a.tsx" ["/w/app/b.tsx"; "react"]
            ∈ [mkInfo "/w/app/a.tsx" ["/w/app/b.tsx"; "react"];
                mkInfo "/w/app/b.tsx" ["/w/app/a.tsx"]]) as Hin
    by apply list_elem_of_here.
  split; [exact Hin|]. split; [reflexivity|].
  destruct (dependencies_of_scanned_file (mkGraph ∅ ∅) _ _ Hin eq_refl)
    as (deps & Hlookup & _ & Hdirect).
  exists deps. split; [exact Hlookup|].
  apply Hdirect; [decide_by_compute | discriminate | discriminate].
Defined.

Lemma no_import_statement_no_entries_witness :
  @read_bytes reexport_world "/w/app/index.ts" = Some reexport_src
  /\ Forall (fun n => type n <> "import_statement")
            (preorder (@parser_ts_parse reexport_world reexport_src))
  /\ @isfile reexport_world "/w/app/b.tsx" = true
  /\ @extract_imports reexport_world "/w/app/index.ts"
     = Ok (mkInfo "/w/app/index.ts" []).
Proof.
  assert (Forall (fun n => type n <> "import_statement")
            (preorder (@parser_ts_parse reexport_world reexport_src))) as Hall
    by (vm_compute; repeat constructor; discriminate).
  split; [reflexivity|]. split; [exact Hall|]. split; [reflexivity|].
  exact (@no_import_statement_no_entries reexport_world
           "/w/app/index.ts" reexport_src eq_refl Hall).
Defined.

Lemma scan_files_in_full_witness :
  @scan_files app_world ["app/a.tsx"; "app/b.tsx"]
  = Ok [mkInfo "app/a.tsx" ["/w/app/b.tsx"; "lodash"];
        mkInfo "app/b.tsx" ["./globals.css"]]
  /\ map file [mkInfo "app/a.tsx" ["/w/app/b.tsx"; "lodash"];
               mkInfo "app/b.tsx" ["./globals.css"]]
     = ["app/a.tsx"; "app/b.tsx"].
Proof.
  assert (@scan_files app_world ["app/a.tsx"; "app/b.tsx"]
          = Ok [mkInfo "app/a.tsx" ["/w/app/b.tsx"; "lodash"];
                mkInfo "app/b.tsx" ["./globals.css"]]) as H
    by (vm_compute; reflexivity).
  split; [exact H|].
  exact (proj2 (@scan_files_in_full app_world _ _) H).
Defined.

Lemma resolved_path_has_tried_extension_witness :
  @resolve_import_path app_world "/w/app" "./b" = Ok (Some "/w/app/b.tsx")
  /\ (exists stem ext,
        "/w/app/b.tsx" = stem ++ ext
        /\ (ext = ".ts" \/ ext = ".tsx" \/ ext = ".js" \/ ext = ".jsx"))
  /\ "/w/app/b.tsx" <> @abspath app_world (Path.join "/w/app" "./b").
Proof.
  split; [reflexivity|].
  pose proof (@resolved_path_has_tried_extension app_world "/w/app" "./b"
                "/w/app/b.tsx" eq_refl) as (Hext & _ & Hnamed).
  split; [exact Hext | exact (Hnamed eq_refl)].
Defined.

Lemma plain_specifier_resolution_witness :
  Str.startswith "@/" "./globals.css" = false
  /\ @isfile app_world (Path.join "/w/app" "./globals.css") = true
  /\ Forall (fun c => @isfile app_world c = false)
            (@candidates "/w/app" "./globals.css")
  /\ @resolve_import_path app_world "/w/app" "./globals.css" = Ok None.
Proof.
  assert (Forall (fun c => @isfile app_world c = false)
            (@candidates "/w/app" "./globals.css")) as Hall
    by (repeat constructor).
  split; [reflexivity|]. split; [reflexivity|]. split; [exact Hall|].
  exact (proj2 (proj2 (@plain_specifier_resolution app_world
                         "/w/app" "./globals.css" eq_refl)) Hall).
Defined.

Lemma absolute_base_url_resolution_witness :
  @get_tsconfig_base_url absolute_world "/proj" = Ok (JStr "/proj/src")
  /\ @get_tsconfig_base_url absolute_world "/proj/app" = Ok (JStr "/proj/src")
  /\ @resolve_import_path absolute_world "/proj" "@/lib/util"
     = @resolve_import_path absolute_world "/proj/app" "@/lib/util"
  /\ @resolve_import_path absolute_world "/proj/app" "@/lib/util"
     = Ok (Some "/proj/src/lib/util.ts").
Proof.
  split; [reflexivity|]. split; [reflexivity|].
  split; [|reflexivity].
  exact (proj1 (@absolute_base_url_resolution absolute_world
                  "/proj" "/proj/app" "/proj/src" "@/lib/util"
                  eq_refl eq_refl eq_refl eq_refl)).
Defined.

Lemma alias_without_base_url_witness :
  @get_tsconfig_base_url app_world "/w/app" = Ok JNull
  /\ @resolve_import_path app_world "/w/app" ("@/" ++ "b") = Ok (Some "/w/app/b.tsx").
Proof.
  split; [reflexivity|].
  exact (@alias_without_base_url app_world "/w/app" "b" JNull eq_refl eq_refl).
Defined.

Lemma nearest_config_decides_witness :
  @find_tsconfig_dir bare_world "/p/a" = Some "/p/a"
  /\ @read_base_url bare_world (Path.join "/p/a" "tsconfig.json") = Ok JNull
  /\ @get_tsconfig_base_url bare_world "/p" = Ok (JStr "src")
  /\ @get_tsconfig_base_url bare_world "/p/a" = Ok JNull.
Proof.
  split; [reflexivity|]. split; [reflexivity|]. split; [reflexivity|].
  exact (@nearest_config_decides bare_world "/p/a" "/p/a" JNull eq_refl eq_refl).
Defined.

Lemma no_config_no_base_url_witness :
  @find_tsconfig_json app_world "/w/app" = None
  /\ @get_tsconfig_base_url app_world "/w/app" = Ok JNull.
Proof.
  split; [reflexivity|].
  exact (@no_config_no_base_url app_world "/w/app" eq_refl).
Defined.

Lemma parse_tsconfig_agrees_witness :
  @parse_tsconfig alias_world (@find_tsconfig_json alias_world "/proj/app")
  = Ok (mkTsConfig (JStr "src") (JDict []) (Some "/proj"))
  /\ @get_tsconfig_base_url alias_world "/proj/app" = Ok (JStr "src").
Proof.
  split; [reflexivity|].
  exact (@parse_tsconfig_agrees alias_world "/proj/app"
           (mkTsConfig (JStr "src") (JDict []) (Some "/proj")) eq_refl).
Defined.

Lemma upward_walks_end_witness :
  String.length "/proj/app" < 10
  /\ @tsconfig_walk alias_world 10 "/proj/app" = Some (Ok (JStr "src"))
  /\ @find_dir_walk alias_world 10 "/proj/app" = Some (Some "/proj").
Proof.
  assert (String.length "/proj/app" < 10) as H by (simpl; lia).
  split; [exact H|].
  destruct (@upward_walks_end alias_world 10 "/proj/app" H) as (H1 & H2 & _).
  split; [exact H1 | exact H2].
Defined.

End Instances.

(** ** Directories above a normalized path *)

(** [dirname] drops the last component of a normalized path. *)
Lemma dirname_form (lead : string) (comps : list string) (c : string) :
  lead = "/" \/ lead = "//" -> Forall good (comps ++ [c]) ->
  Path.dirname (lead ++ Str.join (comps ++ [c])) = lead ++ Str.join comps.
Proof.
  intros Hlead Hall. apply Forall_app in Hall as [Hcomps [[_ Hc] _]%Forall_cons].
  unfold Path.dirname. destruct comps as [|c0 comps].
  - cbn [app Str.join]. rewrite app_nil_r_str.
    destruct Hlead as [-> | ->].
    + change ("/" ++ c) with ("" ++ String Str.slash c).
      by rewrite (upto_last_slash_app "" c Hc).
    + change ("//" ++ c) with ("/" ++ String Str.slash c).
      by rewrite (upto_last_slash_app "/" c Hc).
  - rewrite join_snoc_nonempty by done.
    set (j := Str.join (c0 :: comps)).
    replace (lead ++ j ++ "/" ++ c) with ((lead ++ j) ++ String Str.slash c)
      by (by rewrite !app_assoc_str).
    rewrite (upto_last_slash_app _ c Hc).
    destruct (join_good_last (c0 :: comps) Hcomps) as (y & b & Hj & Hb); [done|].
    fold j in Hj. rewrite Hj.
    replace ((lead ++ y ++ String b "") ++ "/")
      with ((lead ++ y) ++ String b (String Str.slash ""))
      by (by rewrite !app_assoc_str).
    rewrite (all_slashes_with_char _ _ b Hb), (rstrip_after_char _ b _ Hb).
    assert (String.eqb ((lead ++ y) ++ String b (String Str.slash "")) "" = false) as ->.
    { apply String.eqb_neq. intros H. apply (f_equal String.length) in H.
      rewrite !length_app in H. simpl in H. lia. }
    simpl. by rewrite !app_assoc_str.
Qed.

Lemma dirname_normalized (p : string) :
  Path.normalized p = true -> Path.normalized (Path.dirname p) = true.
Proof.
  intros (lead & comps & Hlead & Hall & ->)%normalized_form_inv.
  destruct (decide (comps = [])) as [->|Hne].
  - by destruct Hlead as [-> | ->].
  - destruct (exists_last Hne) as (init & c & ->).
    rewrite dirname_form by done. apply normalized_form; [done|].
    by apply Forall_app in Hall as [? _].
Qed.

Lemma ancestor_normalized (k : nat) (d : string) :
  Path.normalized d = true -> Path.normalized (ancestor k d) = true.
Proof.
  intros Hd. induction k as [|k IH]; [done|].
  unfold ancestor in *. simpl. by apply dirname_normalized.
Qed.

Lemma ancestor_prefix (k : nat) (d : string) : exists rest, d = ancestor k d ++ rest.
Proof.
  induction k as [|k [rest IH]]; [exists ""; by rewrite app_nil_r_str|].
  unfold ancestor in *. simpl.
  destruct (dirname_prefix (Nat.iter k Path.dirname d)) as [r Hr].
  exists (r ++ rest). by rewrite <- app_assoc_str, <- Hr.
Qed.

Lemma good_tsconfig : good "tsconfig.json".
Proof. split; reflexivity. Qed.

(** The [tsconfig.json] of a normalized directory is a normalized path, and
    the directory is its [dirname]. *)
Lemma join_tsconfig_normalized (d : string) :
  Path.normalized d = true ->
  Path.normalized (Path.join d "tsconfig.json") = true
  /\ Path.dirname (Path.join d "tsconfig.json") = d.
Proof.
  intros (lead & comps & Hlead & Hall & ->)%normalized_form_inv.
  assert (Forall good (comps ++ ["tsconfig.json"])) as Hall'
    by (apply Forall_app; split; [done|]; constructor; [apply good_tsconfig | done]).
  assert (Path.join (lead ++ Str.join comps) "tsconfig.json"
          = lead ++ Str.join (comps ++ ["tsconfig.json"])) as ->.
  { unfold Path.join. cbn [Str.startswith]. 
    change (Ascii.eqb "/" "t") with false. cbn [andb].
    destruct (decide (comps = [])) as [->|Hne].
    - cbn [app Str.join]. rewrite app_nil_r_str. by destruct Hlead as [-> | ->].
    - rewrite join_snoc_nonempty by done.
      destruct (join_good_last comps Hall Hne) as (y & b & -> & Hb).
      assert (String.eqb (lead ++ y ++ String b "") "" = false) as ->.
      { apply String.eqb_neq. intros H. apply (f_equal String.length) in H.
        rewrite !length_app in H. simpl in H. lia. }
      assert (Str.endswith_slash (lead ++ y ++ String b "") = false) as ->.
      { rewrite <- app_assoc_str. generalize (lead ++ y). intros z.
        induction z as [|a z IH]; str_simpl; simpl.
        - by destruct (Ascii.eqb_spec b Str.slash).
        - rewrite IH. by destruct z. }
      simpl. by rewrite !app_assoc_str. }
  split; [by apply normalized_form | by apply dirname_form].
Qed.

Section NormalizedLocator.
Context {W : World}.

Lemma found_directory_facts (start_dir dir : string) :
  Path.isabs getcwd = true ->
  find_tsconfig_dir start_dir = Some dir ->
  Path.normalized dir = true
  /\ (exists rest, abspath start_dir = dir ++ rest)
  /\ find_tsconfig_json start_dir = Some (Path.join dir "tsconfig.json")
  /\ Path.normalized (Path.join dir "tsconfig.json") = true
  /\ Path.dirname (Path.join dir "tsconfig.json") = dir
  /\ isfile (Path.join dir "tsconfig.json") = true.
Proof.
  intros Hcwd Hfind.
  assert (find_tsconfig_json start_dir = Some (Path.join dir "tsconfig.json")) as Hjson.
  { change (find_json_from (abspath start_dir) = Some (Path.join dir "tsconfig.json")).
    rewrite find_json_from_dir.
    change (find_dir_from (abspath start_dir) = Some dir) in Hfind. by rewrite Hfind. }
  apply find_dir_from_Some in Hfind as (k & -> & Hfile & _).
  assert (Path.normalized (ancestor k (abspath start_dir)) = true) as Hn
    by (by apply ancestor_normalized, abspath_normalized).
  split; [done|]. split; [apply ancestor_prefix|]. split; [done|].
  destruct (join_tsconfig_normalized _ Hn) as [? ?]. done.
Qed.

(** X23.  The directory [find_tsconfig_dir] returns is an absolutized,
    normalized path, a prefix of the absolutized start, and the path
    [find_tsconfig_json] returns is the normalized path of the
    [tsconfig.json] in it. *)
Theorem found_directory_is_normalized (start_dir dir : string) :
  Path.isabs getcwd = true ->
  find_tsconfig_dir start_dir = Some dir ->
  Path.normalized dir = true
  /\ (exists rest, abspath start_dir = dir ++ rest)
  /\ find_tsconfig_json start_dir = Some (Path.join dir "tsconfig.json")
  /\ Path.normalized (Path.join dir "tsconfig.json") = true
  /\ Path.dirname (Path.join dir "tsconfig.json") = dir.
Proof.
  intros Hcwd Hfind.
  destruct (found_directory_facts start_dir dir Hcwd Hfind) as (?&?&?&?&?&_). done.
Qed.

(** X24.  Where [parse_tsconfig] returns on what [find_tsconfig_json]
    found, its [tsconfigDir] is the directory [find_tsconfig_dir] returns. *)
Theorem tsconfig_dir_round_trip (start_dir : string) (cfg : TsConfig) :
  Path.isabs getcwd = true ->
  parse_tsconfig (find_tsconfig_json start_dir) = Ok cfg ->
  tsconfigDir cfg = find_tsconfig_dir start_dir.
Proof.
  intros Hcwd.
  destruct (find_tsconfig_dir start_dir) as [dir|] eqn:Hdir.
  - destruct (found_directory_facts start_dir dir Hcwd Hdir)
      as (_ & _ & Hjson & Hn & Hd & Hfile).
    rewrite Hjson. unfold parse_tsconfig. rewrite Hfile.
    pose proof (join_tsconfig_nonempty dir) as Hne.
    apply String.eqb_neq in Hne. rewrite Hne. cbn [negb andb].
    destruct (json_load _) as [config|e]; rewrite ?bind_Ok, ?bind_Raise; [|done].
    destruct (py_get config _ _) as [opts|e]; rewrite ?bind_Ok, ?bind_Raise; [|done].
    destruct (py_get opts "baseUrl" _) as [b|e]; rewrite ?bind_Ok, ?bind_Raise; [|done].
    destruct (py_get opts "paths" _) as [ps|e]; rewrite ?bind_Ok, ?bind_Raise; [|done].
    intros [= <-]. simpl. unfold abspath.
    by rewrite (normalized_abspath_in _ _ Hn), Hd.
  - assert (find_tsconfig_json start_dir = None) as ->.
    { change (find_json_from (abspath start_dir) = None).
      rewrite find_json_from_dir.
      change (find_dir_from (abspath start_dir) = None) in Hdir. by rewrite Hdir. }
    by intros [= <-].
Qed.

End NormalizedLocator.

Lemma found_directory_is_normalized_witness :
  Path.isabs (@getcwd Sample.alias_world) = true
  /\ @find_tsconfig_dir Sample.alias_world "app/admin" = Some "/proj"
  /\ Path.normalized "/proj" = true
  /\ @find_tsconfig_json Sample.alias_world "app/admin" = Some "/proj/tsconfig.json".
Proof.
  split; [reflexivity|]. split; [reflexivity|].
  destruct (@found_directory_is_normalized Sample.alias_world "app/admin" "/proj"
              eq_refl eq_refl) as (H1 & _ & H2 & _).
  split; [exact H1 | exact H2].
Defined.

Lemma tsconfig_dir_round_trip_witness :
  Path.isabs (@getcwd Sample.alias_world) = true
  /\ @parse_tsconfig Sample.alias_world (@find_tsconfig_json Sample.alias_world "app/admin")
     = Ok (mkTsConfig (JStr "src") (JDict []) (Some "/proj"))
  /\ Some "/proj" = @find_tsconfig_dir Sample.alias_world "app/admin".
Proof.
  split; [reflexivity|]. split; [reflexivity|].
  exact (@tsconfig_dir_round_trip Sample.alias_world "app/admin"
           (mkTsConfig (JStr "src") (JDict []) (Some "/proj")) eq_refl eq_refl).
Defined.

(** ** Scanned under relative paths *)

Lemma tc_one_step {A : Type} (R : relation A) (x y : A) :
  (forall a b c, R a b -> R b c -> False) -> tc R x y -> R x y.
Proof.
  intros Hno. induction 1 as [x y H|x y z H Htc _]; [done|].
  exfalso. inversion Htc as [? ? H'|? ? ? H' _]; subst;
    exact (Hno _ _ _ H H').
Qed.

Lemma direct_imports_aux (graph : GraphStore) (records : list ImportInfo)
    (f : string) (deps : list string) :
  (forall fi fj t, fi ∈ records -> fj ∈ records ->
                   t ∈ imports fi -> t <> "" -> t <> file fj) ->
  get_app_folder_dependencies (create_file_dependency_graph graph records) !! f
  = Some deps ->
  forall d, d ∈ deps
    <-> exists fi, fi ∈ records /\ file fi = f /\ d ∈ imports fi /\ d <> "".
Proof.
  intros Hno [[Hnode _] Hdeps]%dependency_list_elem_of d.
  rewrite Hdeps. split.
  - intros [_ Htc]. apply (create_rels graph). revert Htc.
    apply (tc_one_step (imports_rel _)).
    unfold imports_rel. intros a b c (fi & ? & ? & ? & ?)%create_rels
      (fj & ? & ? & ? & ?)%create_rels. by eapply (Hno fi fj b).
  - intros (fi & Hfi & <- & Hd & Hne). split.
    + by apply (Hno fi fi d).
    + apply tc_once. unfold imports_rel. apply create_rels. eauto.
Qed.

(** X25.  Where no import target is spelled like the path of a scanned file,
    a dependency list holds the direct imports of the file and nothing
    further: the query has no second hop to follow. *)
Theorem direct_imports_only (graph : GraphStore) (records : list ImportInfo)
    (f : string) (deps : list string) :
  (forall fi fj t, fi ∈ records -> fj ∈ records ->
                   t ∈ imports fi -> t <> "" -> t <> file fj) ->
  get_app_folder_dependencies (create_file_dependency_graph graph records) !! f
  = Some deps ->
  forall d, d ∈ deps
    <-> exists fi, fi ∈ records /\ file fi = f /\ d ∈ imports fi /\ d <> "".
Proof. apply direct_imports_aux. Qed.

Section RelativeScan.
Context {W : World}.

Lemma scan_files_paths (ts_files : list string) (records : list ImportInfo) :
  scan_files ts_files = Ok records -> map file records = ts_files.
Proof.
  unfold scan_files. intros (recs & -> & H)%scan_files_acc. simpl.
  induction H as [|f info l recs Hf _ IH]; [done|]. simpl. f_equal; [|done].
  by apply extract_imports_entries in Hf as [? _].
Qed.

(** X26.  [main.py] collects the files under a relative directory.  For a
    scan of relative paths no absolute entry of a record is a collected
    path; where no relative entry (an unresolved specifier, a package name)
    is spelled like one either, the dependency lists of the graph built
    from the scan hold the direct imports only. *)
Theorem relative_scan_gives_direct_imports (graph : GraphStore)
    (ts_files : list string) (records : list ImportInfo)
    (f : string) (deps : list string) :
  scan_files ts_files = Ok records ->
  Forall (fun fpath => Path.isabs fpath = false) ts_files ->
  (forall fi t, fi ∈ records -> t ∈ imports fi -> Path.isabs t = false ->
                t ∉ ts_files) ->
  get_app_folder_dependencies (create_file_dependency_graph graph records) !! f
  = Some deps ->
  forall d, d ∈ deps
    <-> exists fi, fi ∈ records /\ file fi = f /\ d ∈ imports fi /\ d <> "".
Proof.
  intros Hscan%scan_files_paths Hrel Hraw. apply direct_imports_aux.
  intros fi fj t Hfi Hfj Ht _ ->.
  assert (file fj ∈ ts_files) as Hin
    by (rewrite <- Hscan; by apply list_elem_of_fmap_2).
  destruct (Path.isabs (file fj)) eqn:Habs.
  - rewrite Forall_forall in Hrel. apply Hrel in Hin. congruence.
  - by apply (Hraw fi (file fj)).
Qed.

End RelativeScan.

Section RelativeInstances.
Import Sample More.

Lemma direct_imports_only_witness :
  (forall fi fj t,
     fi ∈ [mkInfo "web/app/a.tsx" ["/w/web/app/b.tsx"; "lodash"]] ->
     fj ∈ [mkInfo "web/app/a.tsx" ["/w/web/app/b.tsx"; "lodash"]] ->
     t ∈ imports fi -> t <> "" -> t <> file fj)
  /\ get_app_folder_dependencies
       (create_file_dependency_graph (mkGraph ∅ ∅)
          [mkInfo "web/app/a.tsx" ["/w/web/app/b.tsx"; "lodash"]])
       !! "web/app/a.tsx" = Some ["/w/web/app/b.tsx"; "lodash"]
  /\ ("lodash" ∈ ["/w/web/app/b.tsx"; "lodash"]
      <-> exists fi, fi ∈ [mkInfo "web/app/a.tsx" ["/w/web/app/b.tsx"; "lodash"]]
            /\ file fi = "web/app/a.tsx" /\ "lodash" ∈ imports fi /\ "lodash" <> "").
Proof.
  assert (forall fi fj t,
     fi ∈ [mkInfo "web/app/a.tsx" ["/w/web/app/b.tsx"; "lodash"]] ->
     fj ∈ [mkInfo "web/app/a.tsx" ["/w/web/app/b.tsx"; "lodash"]] ->
     t ∈ imports fi -> t <> "" -> t <> file fj) as Hno.
  { intros fi fj t ->%list_elem_of_singleton ->%list_elem_of_singleton Ht _ ->.
    simpl in Ht. rewrite !elem_of_cons, elem_of_nil in Ht.
    destruct Ht as [?|[?|[]]]; discriminate. }
  assert (get_app_folder_dependencies
            (create_file_dependency_graph (mkGraph ∅ ∅)
               [mkInfo "web/app/a.tsx" ["/w/web/app/b.tsx"; "lodash"]])
            !! "web/app/a.tsx" = Some ["/w/web/app/b.tsx"; "lodash"]) as Hlookup
    by (vm_compute; reflexivity).
  split; [exact Hno|]. split; [exact Hlookup|].
  exact (direct_imports_only _ _ _ _ Hno Hlookup "lodash").
Defined.

Lemma relative_scan_gives_direct_imports_witness :
  @scan_files chain_world ["web/app/a.tsx"; "web/app/b.tsx"]
  = Ok [mkInfo "web/app/a.tsx" ["/w/web/app/b.tsx"; "lodash"];
        mkInfo "web/app/b.tsx" ["/w/web/app/c.tsx"]]
  /\ get_app_folder_dependencies
       (create_file_dependency_graph (mkGraph ∅ ∅)
          [mkInfo "web/app/a.tsx" ["/w/web/app/b.tsx"; "lodash"];
           mkInfo "web/app/b.tsx" ["/w/web/app/c.tsx"]])
       !! "web/app/a.tsx" = Some ["/w/web/app/b.tsx"; "lodash"]
  /\ ~ (exists fi,
          fi ∈ [mkInfo "web/app/a.tsx" ["/w/web/app/b.tsx"; "lodash"];
                 mkInfo "web/app/b.tsx" ["/w/web/app/c.tsx"]]
          /\ file fi = "web/app/a.tsx" /\ "/w/web/app/c.tsx" ∈ imports fi
          /\ "/w/web/app/c.tsx" <> "")
  /\ ("/w/web/app/c.tsx" ∉ ["/w/web/app/b.tsx"; "lodash"]).
Proof.
  assert (@scan_files chain_world ["web/app/a.tsx"; "web/app/b.tsx"]
          = Ok [mkInfo "web/app/a.tsx" ["/w/web/app/b.tsx"; "lodash"];
                mkInfo "web/app/b.tsx" ["/w/web/app/c.tsx"]]) as Hscan
    by (vm_compute; reflexivity).
  assert (get_app_folder_dependencies
            (create_file_dependency_graph (mkGraph ∅ ∅)
               [mkInfo "web/app/a.tsx" ["/w/web/app/b.tsx"; "lodash"];
                mkInfo "web/app/b.tsx" ["/w/web/app/c.tsx"]])
            !! "web/app/a.tsx" = Some ["/w/web/app/b.tsx"; "lodash"]) as Hlookup
    by (vm_compute; reflexivity).
  assert (~ (exists fi,
          fi ∈ [mkInfo "web/app/a.tsx" ["/w/web/app/b.tsx"; "lodash"];
                 mkInfo "web/app/b.tsx" ["/w/web/app/c.tsx"]]
          /\ file fi = "web/app/a.tsx" /\ "/w/web/app/c.tsx" ∈ imports fi
          /\ "/w/web/app/c.tsx" <> "")) as Hnot.
  { intros (fi & Hfi & Hfile & Hc & _).
    rewrite !elem_of_cons, elem_of_nil in Hfi.
    destruct Hfi as [->|[->|[]]]; [|discriminate Hfile].
    simpl in Hc. rewrite !elem_of_cons, elem_of_nil in Hc.
    destruct Hc as [?|[?|[]]]; discriminate. }
  assert (Forall (fun fpath => Path.isabs fpath = false)
            ["web/app/a.tsx"; "web/app/b.tsx"]) as Hrel
    by (repeat constructor).
  assert (forall fi t,
            fi ∈ [mkInfo "web/app/a.tsx" ["/w/web/app/b.tsx"; "lodash"];
                   mkInfo "web/app/b.tsx" ["/w/web/app/c.tsx"]] ->
            t ∈ imports fi -> Path.isabs t = false ->
            t ∉ ["web/app/a.tsx"; "web/app/b.tsx"]) as Hraw.
  { intros fi t Hfi Ht Habs Hin.
    rewrite !elem_of_cons, elem_of_nil in Hfi.
    rewrite !elem_of_cons, elem_of_nil in Hin.
    destruct Hfi as [->|[->|[]]]; simpl in Ht;
      rewrite !elem_of_cons, elem_of_nil in Ht;
      intuition (subst; discriminate). }
  split; [exact Hscan|]. split; [exact Hlookup|]. split; [exact Hnot|].
  intros Hc. apply Hnot.
  exact (proj1 (@relative_scan_gives_direct_imports chain_world (mkGraph ∅ ∅)
                  _ _ "web/app/a.tsx" _ Hscan Hrel Hraw Hlookup
                  "/w/web/app/c.tsx") Hc).
Defined.

End RelativeInstances.
